(** * wmse_downloader: a shallow embedding of [wmse_downloader.go]

    The development follows the source file top to bottom: constants and
    sentinel errors, [validateShowID], [sanitizeFilename], the resolver
    [getShowArchiveID] with its tree search, [fetchArchives],
    [downloadShow], [progressReader] and [main].  Go strings are byte
    sequences and are
    modelled by [string] (a list of 8-bit [ascii] values).  Effects (file
    system, network, sleeping, logging) are threaded through an explicit
    [World]. *)

From stdpp Require Import gmap strings list.
From Stdlib Require Import ZArith Ascii Lia.

Local Open Scope Z_scope.

(** ** Constants for validation and limits *)

Definition maxShowIDLength : Z := 50.
Definition maxResponseSize : Z := 10 * 1024 * 1024.
Definition maxFileSize : Z := 500 * 1024 * 1024.
Definition maxArchiveLinks : Z := 1000.
Definition baseURL : string := "https://wmse.org".
Definition apiURL : string := "https://wmse.fly.dev".

(** ** Errors

    The five package-level sentinels, [fmt.Errorf] values (format and
    string arguments; [Wrapf] when the format wraps an error with [%w]),
    and errors handed back by the operating system or the HTTP stack. *)

Inductive error : Type :=
| ErrInvalidShowID
| ErrResponseTooLarge
| ErrFileTooLarge
| ErrInvalidContentType
| ErrTooManyLinks
| Errorf (format : string) (args : list string)
| Wrapf (format : string) (args : list string) (wrapped : error)
| ErrExternal (msg : string).

(** [errors.Is err target] for a sentinel [target]: walk the [%w] chain. *)
Fixpoint errors_Is (err target : error) : bool :=
  match err, target with
  | ErrInvalidShowID, ErrInvalidShowID => true
  | ErrResponseTooLarge, ErrResponseTooLarge => true
  | ErrFileTooLarge, ErrFileTooLarge => true
  | ErrInvalidContentType, ErrInvalidContentType => true
  | ErrTooManyLinks, ErrTooManyLinks => true
  | Wrapf _ _ e, _ => errors_Is e target
  | _, _ => false
  end.

(** ** Bytes, runes and character classes *)

Definition byte_val (c : ascii) : Z := Z.of_N (N_of_ascii c).

Definition in_range (lo hi c : ascii) : bool :=
  (byte_val lo <=? byte_val c) && (byte_val c <=? byte_val hi).

Definition byte_between (lo hi : Z) (c : ascii) : bool :=
  (lo <=? byte_val c) && (byte_val c <=? hi).

Definition is_ascii (c : ascii) : bool := byte_val c <? 128.

Definition str_head (s : string) : option ascii :=
  match s with EmptyString => None | String c _ => Some c end.

Definition str_tail (s : string) : string :=
  match s with EmptyString => EmptyString | String _ s' => s' end.

(** Continuation byte test of [unicode/utf8] ([locb, hicb]). *)
Definition is_cont (o : option ascii) : bool :=
  match o with Some c => byte_between 128 191 c | None => false end.

Definition second_ok (lo hi : Z) (o : option ascii) : bool :=
  match o with Some c => byte_between lo hi c | None => false end.

(** The number of bytes [utf8.DecodeRuneInString] consumes for the rune
    that starts with byte [c] and is followed by [rest]: the table
    [first] gives the expected size and the accepted range of the second
    byte; a short or malformed sequence decodes as [RuneError] of width 1. *)
Definition multi_width (size : nat) (lo hi : Z) (rest : string) : nat :=
  if negb (second_ok lo hi (str_head rest)) then 1%nat
  else if (size <=? 2)%nat then 2%nat
  else if negb (is_cont (str_head (str_tail rest))) then 1%nat
  else if (size <=? 3)%nat then 3%nat
  else if negb (is_cont (str_head (str_tail (str_tail rest)))) then 1%nat
  else 4%nat.

Definition rune_width (c : ascii) (rest : string) : nat :=
  let b := byte_val c in
  if b <? 128 then 1%nat
  else if b <? 194 then 1%nat
  else if b <? 224 then multi_width 2 128 191 rest
  else if b =? 224 then multi_width 3 160 191 rest
  else if b <? 237 then multi_width 3 128 191 rest
  else if b =? 237 then multi_width 3 128 159 rest
  else if b <? 240 then multi_width 3 128 191 rest
  else if b =? 240 then multi_width 4 144 191 rest
  else if b <? 244 then multi_width 4 128 191 rest
  else if b =? 244 then multi_width 4 128 143 rest
  else 1%nat.

(** A decoded rune, as far as the patterns of this program can tell runes
    apart: every class member is ASCII, so a rune is either an ASCII byte
    or some rune outside ASCII (which includes [RuneError]). *)
Inductive rune : Type :=
| RAscii (c : ascii)
| RWide.

(** The runes of a string in order, the way [regexp] steps through its
    input.  [skip] counts the bytes still belonging to the rune already
    emitted. *)
Fixpoint runes_from (skip : nat) (s : string) : list rune :=
  match s with
  | EmptyString => []
  | String c s' =>
      match skip with
      | S k => runes_from k s'
      | O =>
          (if is_ascii c then RAscii c else RWide)
            :: runes_from (rune_width c s' - 1) s'
      end
  end.

Definition runes (s : string) : list rune := runes_from 0 s.

(** A bracket expression: ranges and single characters, possibly negated. *)
Record charclass : Type := CharClass {
  negated : bool;
  ranges : list (ascii * ascii);
  singles : list ascii
}.

Definition class_mem (cls : charclass) (c : ascii) : bool :=
  existsb (fun r => in_range (fst r) (snd r) c) (ranges cls)
  || existsb (fun d => Ascii.eqb d c) (singles cls).

Definition class_match (cls : charclass) (r : rune) : bool :=
  match r with
  | RAscii c => xorb (negated cls) (class_mem cls c)
  | RWide => negated cls
  end.

(** [regexp.MatchString] for a pattern of the shape [^[...]+$]: Go's [$]
    without the [m] flag matches at the end of the text only. *)
Definition match_anchored_plus (cls : charclass) (s : string) : bool :=
  match runes s with
  | [] => false
  | rs => forallb (class_match cls) rs
  end.

(** [Regexp.ReplaceAllString] for a pattern that is a single bracket
    expression: every rune in the class is replaced by [repl], every
    other rune is copied byte for byte.  [skip] counts the remaining
    bytes of the rune being stepped over and [keep] tells whether that
    rune is copied. *)
Fixpoint replace_from (cls : charclass) (repl : string) (skip : nat)
    (keep : bool) (s : string) : string :=
  match s with
  | EmptyString => EmptyString
  | String c s' =>
      match skip with
      | S k =>
          if keep then String c (replace_from cls repl k keep s')
          else replace_from cls repl k keep s'
      | O =>
          let r := if is_ascii c then RAscii c else RWide in
          let matched := class_match cls r in
          (if matched then repl else String c EmptyString)
            +:+ replace_from cls repl (rune_width c s' - 1) (negb matched) s'
      end
  end.

Definition ReplaceAllString (cls : charclass) (s repl : string) : string :=
  replace_from cls repl 0 false s.

(** [validShowIDRegex = `^[a-zA-Z0-9_-]+$`] *)
Definition validShowIDClass : charclass :=
  CharClass false [("a", "z"); ("A", "Z"); ("0", "9")]%char ["_"; "-"]%char.

(** The pattern [[^a-zA-Z0-9.-]] compiled in [sanitizeFilename]. *)
Definition unsafeFilenameClass : charclass :=
  CharClass true [("a", "z"); ("A", "Z"); ("0", "9")]%char ["."; "-"]%char.

(** ** validateShowID *)

Definition len (s : string) : Z := Z.of_nat (String.length s).

Definition validateShowID (id : string) : option error :=
  if String.eqb id "" || (maxShowIDLength <? len id) then
    Some (Wrapf "%w: empty or too long" [] ErrInvalidShowID)
  else if negb (match_anchored_plus validShowIDClass id) then
    Some (Wrapf "%w: contains invalid characters" [] ErrInvalidShowID)
  else None.

(** ** sanitizeFilename *)

Definition is_sep (c : ascii) : bool := Ascii.eqb c "/".

(** [filepath.Base] on a Unix path: the loop that strips trailing
    separators, then the scan for the last separator. *)
Fixpoint strip_trailing_seps (path : string) : string :=
  match path with
  | EmptyString => EmptyString
  | String c rest =>
      match strip_trailing_seps rest with
      | EmptyString => if is_sep c then EmptyString else String c EmptyString
      | r => String c r
      end
  end.

Fixpoint has_sep (path : string) : bool :=
  match path with
  | EmptyString => false
  | String c rest => is_sep c || has_sep rest
  end.

Fixpoint last_element (path : string) : string :=
  match path with
  | EmptyString => EmptyString
  | String c rest =>
      if has_sep rest then last_element rest
      else if is_sep c then rest
      else path
  end.

Definition filepath_Base (path : string) : string :=
  if String.eqb path "" then "."
  else
    let path := last_element (strip_trailing_seps path) in
    if String.eqb path "" then "/" else path.

(** [strings.ToLower] on ASCII text.  Its argument in [sanitizeFilename]
    is the output of the replacement above, which is ASCII only (lemma
    [replace_unsafe_safe] below). *)
Definition lower_byte (c : ascii) : ascii :=
  if in_range "A" "Z" c then ascii_of_N (N_of_ascii c + 32) else c.

Fixpoint strings_ToLower (s : string) : string :=
  match s with
  | EmptyString => EmptyString
  | String c s' => String (lower_byte c) (strings_ToLower s')
  end.

(** [s[n:]] *)
Fixpoint slice_from (n : nat) (s : string) : string :=
  match n, s with
  | O, _ => s
  | S k, EmptyString => EmptyString
  | S k, String _ s' => slice_from k s'
  end.

(** [strings.HasSuffix]: [len(s) >= len(suffix) && s[len(s)-len(suffix):] == suffix] *)
Definition strings_HasSuffix (s suffix : string) : bool :=
  (String.length suffix <=? String.length s)%nat
  && String.eqb (slice_from (String.length s - String.length suffix) s) suffix.

Definition sanitizeFilename (filename : string) : string :=
  let filename := filepath_Base filename in
  let filename := ReplaceAllString unsafeFilenameClass filename "_" in
  if negb (strings_HasSuffix (strings_ToLower filename) ".mp3")
  then filename +:+ ".mp3"
  else filename.

(** ** Data model *)

Record Archive : Type := mkArchive {
  ShowID : string;
  ArchiveURL : string;
  PlaylistID : option string;
  PlaylistDate : string
}.

(** [html.Node] of golang.org/x/net/html: the [FirstChild]/[NextSibling]
    chain of a node is its list of children. *)
Inductive NodeType : Type :=
| ErrorNode | TextNode | DocumentNode | ElementNode
| CommentNode | DoctypeNode | RawNode.

Record Attribute : Type := mkAttr {
  Namespace : string;
  Key : string;
  Val : string
}.

Unset Elimination Schemes.
Inductive Node : Type :=
| mkNode (Type_ : NodeType) (Data : string) (Attr : list Attribute)
    (Children : list Node).
Set Elimination Schemes.

Definition is_element (t : NodeType) : bool :=
  match t with ElementNode => true | _ => false end.

(** The loop [for _, attr := range n.Attr] of the closure [f]: the value
    of the first attribute whose key is [show-id], when there is one. *)
Fixpoint show_id_attr (attrs : list Attribute) : option string :=
  match attrs with
  | [] => None
  | attr :: rest =>
      if String.eqb (Key attr) "show-id" then Some (Val attr)
      else show_id_attr rest
  end.

(** The closure [f] of [getShowArchiveID].  It assigns the captured
    variable [archiveID]; here the variable is passed in and its value
    after the call is returned.  [return] leaves the current call of [f]
    only; otherwise the children are visited from first to last. *)
Fixpoint f (n : Node) (archiveID : string) : string :=
  match n with
  | mkNode ty data attrs children =>
      match (if is_element ty && String.eqb data "wmse-archive"
             then show_id_attr attrs else None) with
      | Some v => v
      | None =>
          (fix visit (cs : list Node) (archiveID : string) : string :=
             match cs with
             | [] => archiveID
             | c :: cs' => visit cs' (f c archiveID)
             end) children archiveID
      end
  end.

(** ** The world the program runs in *)

(** A response body: the bytes the stream delivers, then end of file or
    a read error.  A reader may hand out its error together with the
    last bytes, or on the call after them: [body_err_late] tells which. *)
Record Body : Type := mkBody {
  body_data : string;
  body_err : option error;
  body_err_late : bool
}.

(** What [client.Do] gives back: a transport error (refused connection,
    timeout, expired context) or a response with its status. *)
Inductive Response : Type :=
| ConnErr (e : error)
| Resp (StatusCode : Z) (Status : string) (body : Body).

Inductive Level : Type := Debug | Info | Warn | Error.

Inductive Event : Type :=
| EvSleep (d : Z)
| EvRequest (url : string)
| EvLog (lvl : Level) (msg : string) (attrs : list (string * string))
    (err : option error).

Inductive Syscall : Type :=
| OpMkdirAll | OpCreate | OpSync | OpClose | OpRename.

(** [fs] holds the regular files by path, [dirs] the directories the
    program created, [net] the responses the upstream servers give to
    the coming requests in order, [trace] what the program did so far,
    oldest first. *)
Record World : Type := mkWorld {
  fs : gmap string string;
  dirs : gset string;
  net : list Response;
  trace : list Event
}.

(** The parts of the platform the program calls and this file leaves
    open: the two decoders, the URL check of [http.NewRequest],
    [filepath.Join], and which system calls fail on which path. *)
Record Env : Type := mkEnv {
  html_Parse : Body -> error + Node;
  json_Decode : Body -> error + list Archive;
  NewRequest_err : string -> option error;
  filepath_Join : string -> string -> string;
  os_fault : Syscall -> string -> option error
}.

Definition Second : Z := 1000000000.
Definition StatusOK : Z := 200.

Definition emit (e : Event) (w : World) : World :=
  mkWorld (fs w) (dirs w) (net w) (trace w ++ [e]).

Definition time_Sleep (d : Z) (w : World) : World := emit (EvSleep d) w.

Definition logger (lvl : Level) (msg : string) (attrs : list (string * string))
    (err : option error) (w : World) : World :=
  emit (EvLog lvl msg attrs err) w.

(** [client.Do]: one request goes out and the next scripted response
    comes back; with nothing left upstream the connection fails. *)
Definition client_Do (url : string) (w : World) : Response * World :=
  let w := emit (EvRequest url) w in
  match net w with
  | [] => (ConnErr (ErrExternal "connection refused"), w)
  | r :: rest => (r, mkWorld (fs w) (dirs w) rest (trace w))
  end.

(** [os.Stat(path)] returned a nil error *)
Definition os_Stat_ok (path : string) (w : World) : bool :=
  bool_decide (is_Some (fs w !! path)) || bool_decide (path ∈ dirs w).

Definition os_Remove (path : string) (w : World) : World :=
  mkWorld (delete path (fs w)) (dirs w) (net w) (trace w).

(** [s[:n]] for [n] that may exceed the length *)
Fixpoint take_bytes (n : Z) (s : string) : string :=
  match s with
  | EmptyString => EmptyString
  | String c s' => if n <=? 0 then EmptyString else String c (take_bytes (n - 1) s')
  end.

(** Writing [data] through the open handle of [path]: the handle was
    opened by [os.Create] and is the only writer, so its offset is the
    end of the file.  Writes to the staging file are taken to succeed; a
    transfer that breaks off is a body with a read error. *)
Definition file_Write (path data : string) (w : World) : World :=
  mkWorld (<[path := default "" (fs w !! path) +:+ data]> (fs w))
    (dirs w) (net w) (trace w).

(** The error the copy loop gets from [io.LimitReader(body, limit)].
    The limited reader answers end of file, without asking the body,
    once [limit] bytes went through.  So the read error of a body
    shorter than the limit is seen; that of a body of exactly [limit]
    bytes is seen when it comes together with the last bytes and not
    when it would come on the next call; that of a longer body is never
    reached. *)
Definition copy_error (body : Body) (limit : Z) : option error :=
  if len (body_data body) <? limit then body_err body
  else if (len (body_data body) =? limit) && negb (body_err_late body)
  then body_err body
  else None.

(** [io.Copy(outFile, io.LimitReader(body, limit))]: at most [limit]
    bytes of the body are written.  Returns [written] and the error. *)
Definition io_Copy (path : string) (body : Body) (limit : Z) (w : World)
    : Z * option error * World :=
  let data := take_bytes limit (body_data body) in
  let err := copy_error body limit in
  (len data, err, file_Write path data w).

Section Program.

Context (E : Env).

Definition os_MkdirAll (dir : string) (w : World) : option error * World :=
  match os_fault E OpMkdirAll dir with
  | Some e => (Some e, w)
  | None => (None, mkWorld (fs w) ({[dir]} ∪ dirs w) (net w) (trace w))
  end.

(** [os.Create]: the file is created, or truncated when it exists. *)
Definition os_Create (path : string) (w : World) : option error * World :=
  match os_fault E OpCreate path with
  | Some e => (Some e, w)
  | None => (None, mkWorld (<[path := ""]> (fs w)) (dirs w) (net w) (trace w))
  end.

Definition file_Sync (path : string) : option error := os_fault E OpSync path.

Definition file_Close (path : string) : option error := os_fault E OpClose path.

Definition os_Rename (oldpath newpath : string) (w : World)
    : option error * World :=
  match os_fault E OpRename oldpath with
  | Some e => (Some e, w)
  | None =>
      match fs w !! oldpath with
      | None => (Some (ErrExternal "no such file or directory"), w)
      | Some content =>
          (None, mkWorld (<[newpath := content]> (delete oldpath (fs w)))
                   (dirs w) (net w) (trace w))
      end
  end.

(** ** getShowArchiveID *)

Definition getShowArchiveID (showID : string) (w : World)
    : (error + string) * World :=
  match validateShowID showID with
  | Some err => (inl err, w)
  | None =>
  let url := baseURL +:+ "/program/" +:+ showID +:+ "/" in
  match NewRequest_err E url with
  | Some err => (inl (Wrapf "failed to create request: %w" [] err), w)
  | None =>
  let '(resp, w) := client_Do url w in
  match resp with
  | ConnErr err => (inl (Wrapf "failed to fetch program page: %w" [] err), w)
  | Resp code status body =>
  if negb (code =? StatusOK) then
    (inl (Errorf "program page returned non-200 status: %s" [status]), w)
  else
  match html_Parse E body with
  | inl err => (inl (Wrapf "failed to parse HTML: %w" [] err), w)
  | inr doc =>
  let archiveID := f doc "" in
  if String.eqb archiveID "" then
    (inl (Errorf "could not find archive ID on page" []), w)
  else
    (inr archiveID, logger Info "Found archive ID" [("id", archiveID)] None w)
  end end end end.

(** ** fetchArchives *)

Definition fetchArchives (archiveID : string) (w : World)
    : (error + list Archive) * World :=
  let url := apiURL +:+ "/api/shows/" +:+ archiveID in
  match NewRequest_err E url with
  | Some err => (inl (Wrapf "failed to create request: %w" [] err), w)
  | None =>
  let '(resp, w) := client_Do url w in
  match resp with
  | ConnErr err => (inl (Wrapf "failed to fetch archives: %w" [] err), w)
  | Resp code status body =>
  if negb (code =? StatusOK) then
    (inl (Errorf "API returned non-200 status: %s" [status]), w)
  else
  match json_Decode E body with
  | inl err => (inl (Wrapf "failed to parse JSON response: %w" [] err), w)
  | inr archives =>
    (inr archives,
     logger Info "Found archives" [("archive_id", archiveID)] None w)
  end end end.

(** ** downloadShow *)

Definition maxRetries : Z := 3.

(** The values [attempt] takes in
    [for attempt := 1; attempt <= maxRetries; attempt++]. *)
Definition attempt_range : list Z :=
  map Z.of_nat (seq 1 (Z.to_nat maxRetries)).

(** The body of the retry loop after the backoff.  It returns the value
    assigned to [lastErr]: an error where the source says [continue],
    [nil] where it says [break].  The [progressReader] passes the bytes
    through unchanged; its debug lines depend on how the reads are
    chunked and are not recorded in the trace. *)
Definition attempt_once (archive : Archive) (tempFile : string) (w : World)
    : option error * World :=
  match NewRequest_err E (ArchiveURL archive) with
  | Some err => (Some (Wrapf "failed to create request: %w" [] err), w)
  | None =>
  let '(resp, w) := client_Do (ArchiveURL archive) w in
  match resp with
  | ConnErr err =>
      (Some (Wrapf "failed to GET %s: %w" [ArchiveURL archive] err), w)
  | Resp code status body =>
  if negb (code =? StatusOK) then
    (Some (Errorf "bad status downloading %s: %s"
             [ArchiveURL archive; status]), w)
  else
  let '(written, err, w) := io_Copy tempFile body (maxFileSize + 1) w in
  match err with
  | Some err => (Some (Wrapf "error writing to %s: %w" [tempFile] err), w)
  | None =>
  if maxFileSize <? written then (Some ErrFileTooLarge, w)
  else (None, w)
  end end end.

(** The sleep before a retry: [if attempt > 1 { ...; time.Sleep(...) }]. *)
Definition backoff (attempt : Z) (lastErr : option error) (w : World) : World :=
  if 1 <? attempt then
    time_Sleep (Second * (attempt * 2))
      (logger Info "Retrying download" [] lastErr w)
  else w.

(** The retry loop.  The result is the value of [lastErr] when the loop
    is left, by [break] or because the attempts ran out. *)
Fixpoint retry_loop (archive : Archive) (tempFile : string)
    (attempts : list Z) (lastErr : option error) (w : World)
    : option error * World :=
  match attempts with
  | [] => (lastErr, w)
  | attempt :: rest =>
      let w := backoff attempt lastErr w in
      match attempt_once archive tempFile w with
      | (Some err, w) => retry_loop archive tempFile rest (Some err) w
      | (None, w) => (None, w)
      end
  end.

(** The deferred function: [outFile.Close()], which changes nothing
    here, then the removal guarded by [err != nil].  The [err] it reads
    is the variable that [outFile, err := os.Create(tempFile)] declared;
    the statements after the [defer] declare their own [err] in inner
    scopes and never assign this one. *)
Definition deferred_cleanup (err : option error) (tempFile : string)
    (w : World) : World :=
  match err with
  | Some _ => os_Remove tempFile w
  | None => w
  end.

(** The statements of [downloadShow] after the [defer]. *)
Definition download_body (archive : Archive) (filename outputPath tempFile : string)
    (delay : Z) (w : World) : option error * World :=
  let '(lastErr, w) := retry_loop archive tempFile attempt_range None w in
  match lastErr with
  | Some e => (Some e, w)
  | None =>
  match file_Sync tempFile with
  | Some err => (Some (Wrapf "failed to sync file: %w" [] err), w)
  | None =>
  match file_Close tempFile with
  | Some err => (Some (Wrapf "failed to close file: %w" [] err), w)
  | None =>
  match os_Rename tempFile outputPath w with
  | (Some err, w) => (Some (Wrapf "failed to rename temp file: %w" [] err), w)
  | (None, w) =>
  let w := logger Info "Downloaded file" [("filename", filename)] None w in
  let w := time_Sleep delay w in
  (None, w)
  end end end end.

Definition downloadShow (archive : Archive) (outputDir : string) (delay : Z)
    (w : World) : option error * World :=
  if String.eqb (ArchiveURL archive) "" then
    (Some (Errorf "no MP3 URL available for archive: %s" [ShowID archive]), w)
  else
  let filename := PlaylistDate archive +:+ "_" +:+ ShowID archive +:+ ".mp3" in
  let filename := sanitizeFilename filename in
  let outputPath := filepath_Join E outputDir filename in
  if os_Stat_ok outputPath w then
    (None, logger Info "Skipping existing file" [("filename", filename)] None w)
  else
  let w := logger Info "Downloading show"
             [("date", PlaylistDate archive); ("url", ArchiveURL archive)]
             None w in
  match os_MkdirAll outputDir w with
  | (Some err, w) =>
      (Some (Wrapf "could not create output directory: %w" [] err), w)
  | (None, w) =>
  let tempFile := outputPath +:+ ".tmp" in
  let '(err, w) := os_Create tempFile w in
  match err with
  | Some e =>
      (Some (Wrapf "could not create temp file %s: %w" [tempFile] e), w)
  | None =>
  let '(result, w) :=
    download_body archive filename outputPath tempFile delay w in
  (result, deferred_cleanup err tempFile w)
  end end.

(** ** main *)

(** The loop [for _, archive := range archives] of [main]. *)
Fixpoint download_each (archives : list Archive) (outDir : string)
    (delay : Z) (w : World) : World :=
  match archives with
  | [] => w
  | archive :: rest =>
      let '(err, w) := downloadShow archive outDir delay w in
      let w :=
        match err with
        | Some e =>
            logger Error "Download failed" [("archive", ShowID archive)]
              (Some e) w
        | None => w
        end in
      download_each rest outDir delay w
  end.

(** [main] with the parsed flags as arguments; the result is the exit
    status of the process ([os.Exit(1)], or 0 when [main] returns). *)
Definition main (showID outDir : string) (delay : Z) (w : World) : Z * World :=
  let w := logger Info "Starting archive download"
             [("show_id", showID); ("output_dir", outDir)] None w in
  match getShowArchiveID showID w with
  | (inl err, w) => (1, logger Error "Failed to get archive ID" [] (Some err) w)
  | (inr archiveID, w) =>
  match fetchArchives archiveID w with
  | (inl err, w) => (1, logger Error "Failed to fetch archives" [] (Some err) w)
  | (inr archives, w) =>
  if (List.length archives =? 0)%nat then
    (1, logger Error "No archives found" [("show_id", showID)] None w)
  else
    (0, download_each archives outDir delay w)
  end end.

End Program.

(** ** progressReader *)

(** An [io.Reader]: [io_Read r n] is one call of [Read] with a buffer of
    [n] bytes.  It gives the bytes read, the error, and the reader
    afterwards. *)
Class io_Reader (R : Type) : Type :=
  io_Read : R -> nat -> string * option error * R.

(** The value an [int64] holds after an addition whose exact result is [z]. *)
Definition wrap_int64 (z : Z) : Z := (z + 2 ^ 63) mod 2 ^ 64 - 2 ^ 63.

(** [progressReader].  The callback acts on a state of type [W]. *)
Record progressReader (R W : Type) : Type := mkProgressReader {
  reader : R;
  total : Z;
  written : Z;
  onProgress : option (Z -> W -> W)
}.

Arguments mkProgressReader {R W}.
Arguments reader {R W}.
Arguments total {R W}.
Arguments written {R W}.
Arguments onProgress {R W}.

(** [(pr *progressReader) Read(p)] with [len(p) = p]. *)
Definition progressReader_Read {R W : Type} `{io_Reader R}
    (pr : progressReader R W) (p : nat) (w : W)
    : string * option error * progressReader R W * W :=
  let '(data, err, rd) := io_Read (reader pr) p in
  let n := len data in
  if 0 <? n then
    let wr := wrap_int64 (written pr + n) in
    let w :=
      match onProgress pr with
      | Some callback => callback wr w
      | None => w
      end in
    (data, err, mkProgressReader rd (total pr) wr (onProgress pr), w)
  else
    (data, err, mkProgressReader rd (total pr) (written pr) (onProgress pr), w).

(** The callback [downloadShow] installs: a debug line when the count is
    a multiple of 1024 ([%] of Go truncates, as [Z.rem] does).  The line
    is recorded with its file name; its two numbers are left out. *)
Definition download_onProgress (filename : string) (count : Z) (w : World)
    : World :=
  if Z.rem count 1024 =? 0 then
    logger Debug "Download progress" [("filename", filename)] None w
  else w.

(** A caller that reads with buffers of the given sizes, one call after
    the other, through the [progressReader] ... *)
Fixpoint progress_reads {R W : Type} `{io_Reader R}
    (pr : progressReader R W) (sizes : list nat) (w : W)
    : list (string * option error) * progressReader R W * W :=
  match sizes with
  | [] => ([], pr, w)
  | p :: rest =>
      let '(data, err, pr, w) := progressReader_Read pr p w in
      let '(results, pr, w) := progress_reads pr rest w in
      ((data, err) :: results, pr, w)
  end.

(** ... and directly from the reader it wraps. *)
Fixpoint reader_reads {R : Type} `{io_Reader R} (r : R) (sizes : list nat)
    : list (string * option error) * R :=
  match sizes with
  | [] => ([], r)
  | p :: rest =>
      let '(data, err, r) := io_Read r p in
      let '(results, r) := reader_reads r rest in
      ((data, err) :: results, r)
  end.

(** ** Vocabulary of the statements *)

Fixpoint all_chars (p : ascii -> bool) (s : string) : bool :=
  match s with
  | EmptyString => true
  | String c s' => p c && all_chars p s'
  end.

(** The character class [[A-Za-z0-9._-]]. *)
Definition safe_char (c : ascii) : bool :=
  in_range "A" "Z" c || in_range "a" "z" c || in_range "0" "9" c
  || Ascii.eqb c "." || Ascii.eqb c "_" || Ascii.eqb c "-".

(** The shape of a show key as the data model words it: between 1 and 50
    characters, each of them in [[A-Za-z0-9_-]].  Characters are runes. *)
Definition spec_key_char (r : rune) : bool :=
  match r with
  | RAscii c =>
      in_range "A" "Z" c || in_range "a" "z" c || in_range "0" "9" c
      || Ascii.eqb c "_" || Ascii.eqb c "-"
  | RWide => false
  end.

Definition spec_show_key (s : string) : bool :=
  (1 <=? List.length (runes s))%nat
  && (List.length (runes s) <=? 50)%nat
  && forallb spec_key_char (runes s).

(** The values the closure [f] assigns while it walks [n], in the order
    of the walk: a matching element contributes its value and is not
    entered; any other node contributes what its children contribute. *)
Fixpoint matches (n : Node) : list string :=
  match n with
  | mkNode ty data attrs children =>
      match (if is_element ty && String.eqb data "wmse-archive"
             then show_id_attr attrs else None) with
      | Some v => [v]
      | None => flat_map matches children
      end
  end.

(** Induction on documents with the hypothesis available for every child. *)
Definition Node_ind' (P : Node -> Prop)
    (step : forall ty data attrs children,
        Forall P children -> P (mkNode ty data attrs children)) :
    forall n, P n :=
  fix go (n : Node) : P n :=
    match n with
    | mkNode ty data attrs children =>
        step ty data attrs children
          ((fix all (cs : list Node) : Forall P cs :=
              match cs with
              | [] => @List.Forall_nil Node P
              | c :: cs' => @List.Forall_cons Node P c cs' (go c) (all cs')
              end) children)
    end.

(** The destination path [downloadShow] computes for an entry. *)
Definition destination (E : Env) (archive : Archive) (outputDir : string)
    : string :=
  filepath_Join E outputDir
    (sanitizeFilename
       (PlaylistDate archive +:+ "_" +:+ ShowID archive +:+ ".mp3")).

(** Events of the retry loop. *)
Definition is_retry_event (e : Event) : bool :=
  match e with
  | EvSleep _ => true
  | EvRequest _ => true
  | EvLog Info msg _ _ => String.eqb msg "Retrying download"
  | _ => false
  end.

(** The event that closes the handling of one catalog entry: the entry
    was skipped, was downloaded, or its failure was reported by [main]. *)
Definition is_outcome_event (e : Event) : bool :=
  match e with
  | EvLog Info msg _ _ =>
      String.eqb msg "Skipping existing file"
      || String.eqb msg "Downloaded file"
  | EvLog Error msg _ _ => String.eqb msg "Download failed"
  | _ => false
  end.

Definition count_outcomes (tr : list Event) : nat :=
  List.length (List.filter is_outcome_event tr).

Definition is_request (e : Event) : bool :=
  match e with EvRequest _ => true | _ => false end.

Definition sleeps (tr : list Event) : list Z :=
  flat_map (fun e => match e with EvSleep d => [d] | _ => [] end) tr.

(** What [retry_loop] may change: nothing but the staging file and the
    trace, to which it adds retry events only. *)
Definition retry_frame (tempFile : string) (w w' : World) : Prop :=
  dirs w' = dirs w
  /\ (exists evs, trace w' = trace w ++ evs
                  /\ forallb is_retry_event evs = true)
  /\ (forall p, p <> tempFile -> fs w' !! p = fs w !! p)
  /\ (is_Some (fs w !! tempFile) -> is_Some (fs w' !! tempFile)).

(** The bytes the attempt that receives [r] writes to the staging file. *)
Definition staged_bytes (r : Response) : string :=
  match r with
  | ConnErr _ => ""
  | Resp code _ body =>
      if code =? StatusOK then take_bytes (maxFileSize + 1) (body_data body)
      else ""
  end.

(** The attempt that receives [r] fails: transport error, status other
    than 200, a read error that the copy sees, or too many bytes. *)
Definition failing_response (r : Response) : bool :=
  match r with
  | ConnErr _ => true
  | Resp code _ body =>
      negb (code =? StatusOK)
      || match (copy_error body (maxFileSize + 1)) with
         | Some _ => true
         | None =>
             maxFileSize <? len (take_bytes (maxFileSize + 1) (body_data body))
         end
  end.

(** The character class [[A-Za-z0-9_-]] on bytes. *)
Definition key_byte (c : ascii) : bool :=
  in_range "A" "Z" c || in_range "a" "z" c || in_range "0" "9" c
  || Ascii.eqb c "_" || Ascii.eqb c "-".

(** The URLs of the requests in a trace, in order. *)
Definition requests (tr : list Event) : list string :=
  flat_map (fun e => match e with EvRequest url => [url] | _ => [] end) tr.

(** What the program added to the trace between [w] and [w']. *)
Definition events_since (w w' : World) : list Event :=
  drop (List.length (trace w)) (trace w').

(** The sleeps the retry loop makes before the given attempts. *)
Definition backoffs (attempts : list Z) : list Z :=
  flat_map (fun k => if 1 <? k then [Second * (k * 2)] else []) attempts.

(** The error the attempt that receives [r] assigns to [lastErr]. *)
Definition attempt_error (archive : Archive) (tempFile : string) (r : Response)
    : option error :=
  match r with
  | ConnErr err =>
      Some (Wrapf "failed to GET %s: %w" [ArchiveURL archive] err)
  | Resp code status body =>
      if negb (code =? StatusOK) then
        Some (Errorf "bad status downloading %s: %s"
                [ArchiveURL archive; status])
      else
        match (copy_error body (maxFileSize + 1)) with
        | Some err => Some (Wrapf "error writing to %s: %w" [tempFile] err)
        | None =>
            if maxFileSize <? len (take_bytes (maxFileSize + 1) (body_data body))
            then Some ErrFileTooLarge else None
        end
  end.

(** The counts [written] goes through when reads of the given lengths
    come in, starting from [start]; a read of no bytes leaves no count. *)
Fixpoint running_totals (start : Z) (lens : list Z) : list Z :=
  match lens with
  | [] => []
  | n :: rest =>
      if 0 <? n then (start + n) :: running_totals (start + n) rest
      else running_totals start rest
  end.

Definition total_bytes (results : list (string * option error)) : Z :=
  fold_right (fun res acc => len (fst res) + acc) 0 results.

(** The first [k] bytes of [s] are there and none of them is ASCII. *)
Fixpoint pending (k : nat) (s : string) : Prop :=
  match k with
  | O => True
  | S k' =>
      match s with
      | EmptyString => False
      | String c s' => is_ascii c = false /\ pending k' s'
      end
  end.

(** The batch policy of the driver in the words of its design: the
    entries are transferred one after the other, in catalog order; a
    transfer that fails is reported, with the show id of the entry and
    the error, and the driver goes on with the next entry.  [w'] is the
    world such a batch over [archives] ends in when it starts in [w]. *)
Inductive spec_batch_run (E : Env) (outDir : string) (delay : Z)
    : list Archive -> World -> World -> Prop :=
| batch_end (w : World) :
    spec_batch_run E outDir delay [] w w
| batch_transferred (a : Archive) (rest : list Archive) (w w1 w' : World) :
    downloadShow E a outDir delay w = (None, w1) ->
    spec_batch_run E outDir delay rest w1 w' ->
    spec_batch_run E outDir delay (a :: rest) w w'
| batch_failed (a : Archive) (rest : list Archive) (w w1 w' : World)
    (err : error) :
    downloadShow E a outDir delay w = (Some err, w1) ->
    spec_batch_run E outDir delay rest
      (logger Error "Download failed" [("archive", ShowID a)] (Some err) w1)
      w' ->
    spec_batch_run E outDir delay (a :: rest) w w'.

(** ** Scenarios *)

Definition plain_Join (dir file : string) : string := dir +:+ "/" +:+ file.

(** A platform without faults on which every page parses as [doc] and
    every listing decodes as [catalog]. *)
Definition scenario_env (doc : Node) (catalog : list Archive) : Env :=
  mkEnv (fun _ => inr doc) (fun _ => inr catalog) (fun _ => None)
    plain_Join (fun _ _ => None).

Definition element (tag : string) (attrs : list Attribute)
    (children : list Node) : Node :=
  mkNode ElementNode tag attrs children.

Definition archive_element (id : string) : Node :=
  element "wmse-archive" [mkAttr "" "show-id" id] [].

Definition page (body : list Node) : Node :=
  mkNode DocumentNode "" []
    [element "html" [] [element "head" [] []; element "body" [] body]].

Definition one_archive_doc : Node := page [archive_element "42"].

Definition two_archives_doc : Node :=
  page [archive_element "1"; archive_element "2"].

Definition ok_body (data : string) : Body := mkBody data None false.

Definition broken_body (data : string) : Body :=
  mkBody data (Some (ErrExternal "unexpected EOF")) false.

Definition entry_ded : Archive :=
  mkArchive "ded" "https://x/y.mp3" None "2024-03-15".

Definition entry_no_url : Archive :=
  mkArchive "ded" "" None "2024-03-15".

Definition empty_world (responses : list Response) : World :=
  mkWorld ∅ ∅ responses [].

Definition downloaded_world (responses : list Response) : World :=
  mkWorld {[ "archives/2024-03-15_ded.mp3" := "ID3" ]} {[ "archives" ]}
    responses [].

Definition server_error : Response :=
  Resp 500 "500 Internal Server Error" (ok_body "").

Definition five_seconds : Z := 5 * Second.

(** A platform on which the output directory cannot be created. *)
Definition readonly_env : Env :=
  mkEnv (fun _ => inr one_archive_doc) (fun _ => inr [entry_ded])
    (fun _ => None) plain_Join
    (fun op _ => match op with
                 | OpMkdirAll => Some (ErrExternal "permission denied")
                 | _ => None
                 end).

(** A reader over a string: it hands out what fits the buffer and
    reports the end of the data afterwards. *)
Definition string_Read (s : string) (n : nat) : string * option error * string :=
  match s with
  | EmptyString => (EmptyString, Some (ErrExternal "EOF"), EmptyString)
  | _ => (take_bytes (Z.of_nat n) s, None, slice_from n s)
  end.

#[global] Instance string_reader : io_Reader string := string_Read.

(** A callback that keeps the counts it is given. *)
Definition record_count (count : Z) (seen : list Z) : list Z := seen ++ [count].

(** * Properties of the string functions *)

Ltac each_byte c :=
  destruct c as [[] [] [] [] [] [] [] []]; vm_compute;
  try reflexivity; try discriminate; try tauto.

Lemma append_nil t : "" +:+ t = t.
Proof. reflexivity. Qed.

Lemma append_cons c s t : String c s +:+ t = String c (s +:+ t).
Proof. reflexivity. Qed.

Lemma all_chars_app p s t :
  all_chars p (s +:+ t) = all_chars p s && all_chars p t.
Proof.
  induction s as [|c s IH]; [reflexivity|].
  rewrite append_cons. cbn [all_chars]. rewrite IH. apply andb_assoc.
Qed.

Lemma safe_char_class c :
  safe_char c = class_mem unsafeFilenameClass c || Ascii.eqb c "_".
Proof. each_byte c. Qed.

Lemma safe_char_ascii c : safe_char c = true -> is_ascii c = true.
Proof. each_byte c. Qed.

Lemma safe_char_not_sep c : safe_char c = true -> is_sep c = false.
Proof. each_byte c. Qed.

Lemma ascii_width_1 c rest : is_ascii c = true -> rune_width c rest = 1%nat.
Proof. unfold is_ascii, rune_width. intros ->. reflexivity. Qed.

(** The replacement of [sanitizeFilename] leaves only safe characters,
    whatever bytes come in. *)
Lemma replace_unsafe_safe s : forall skip keep,
  skip = 0%nat \/ keep = false ->
  all_chars safe_char (replace_from unsafeFilenameClass "_" skip keep s) = true.
Proof.
  induction s as [|c s IH]; intros skip keep Hinv; [reflexivity|].
  cbn [replace_from]. destruct skip as [|k].
  - destruct (is_ascii c) eqn:Hasc.
    + rewrite (ascii_width_1 c s Hasc). cbn [Nat.sub].
      destruct (class_match unsafeFilenameClass (RAscii c)) eqn:Hm;
        rewrite all_chars_app, IH by (left; reflexivity).
      * reflexivity.
      * cbn [all_chars]. rewrite safe_char_class.
        cbn [class_match] in Hm.
        change (negated unsafeFilenameClass) with true in Hm.
        destruct (class_mem unsafeFilenameClass c); [reflexivity|discriminate].
    + change (class_match unsafeFilenameClass RWide) with true.
      cbn [negb]. rewrite all_chars_app, IH by (right; reflexivity).
      reflexivity.
  - destruct Hinv as [Hk| ->]; [discriminate|]. apply IH. right; reflexivity.
Qed.

(** On text that is already safe the replacement changes nothing. *)
Lemma replace_safe_id s : forall keep,
  all_chars safe_char s = true ->
  replace_from unsafeFilenameClass "_" 0 keep s = s.
Proof.
  induction s as [|c s IH]; intros keep Hs; [reflexivity|].
  cbn [all_chars] in Hs. apply andb_prop in Hs as [Hc Hs].
  cbn [replace_from].
  rewrite (safe_char_ascii c Hc), (ascii_width_1 c s (safe_char_ascii c Hc)).
  cbn [Nat.sub]. rewrite IH by exact Hs.
  destruct (class_match unsafeFilenameClass (RAscii c)) eqn:Hm;
    [|reflexivity].
  rewrite append_cons, append_nil. f_equal.
  revert Hc Hm. clear. each_byte c.
Qed.

Lemma safe_no_sep s : all_chars safe_char s = true -> has_sep s = false.
Proof.
  induction s as [|c s IH]; [reflexivity|].
  cbn [all_chars has_sep]. intros [Hc Hs]%andb_prop.
  rewrite (safe_char_not_sep c Hc), IH by exact Hs. reflexivity.
Qed.

Lemma strip_no_sep s : has_sep s = false -> strip_trailing_seps s = s.
Proof.
  induction s as [|c s IH]; [reflexivity|].
  cbn [has_sep strip_trailing_seps]. intros [Hc Hs]%orb_false_elim.
  rewrite IH by exact Hs. rewrite Hc. destruct s; reflexivity.
Qed.

Lemma last_element_no_sep s : has_sep s = false -> last_element s = s.
Proof.
  destruct s as [|c s]; [reflexivity|].
  cbn [has_sep last_element]. intros [Hc Hs]%orb_false_elim.
  rewrite Hs, Hc. reflexivity.
Qed.

Lemma Base_no_sep s :
  s <> "" -> has_sep s = false -> filepath_Base s = s.
Proof.
  intros Hne Hs. unfold filepath_Base.
  rewrite strip_no_sep, last_element_no_sep by exact Hs.
  destruct s; [congruence|reflexivity].
Qed.

Lemma ToLower_app s t :
  strings_ToLower (s +:+ t) = strings_ToLower s +:+ strings_ToLower t.
Proof.
  induction s as [|c s IH]; [reflexivity|].
  rewrite append_cons. cbn [strings_ToLower]. rewrite IH. reflexivity.
Qed.

Lemma length_append s t :
  String.length (s +:+ t) = (String.length s + String.length t)%nat.
Proof.
  induction s as [|c s IH]; [reflexivity|].
  rewrite append_cons. cbn [String.length]. rewrite IH. reflexivity.
Qed.

Lemma slice_from_app s t : slice_from (String.length s) (s +:+ t) = t.
Proof. induction s as [|c s IH]; [destruct t; reflexivity|exact IH]. Qed.

Lemma HasSuffix_app s t : strings_HasSuffix (s +:+ t) t = true.
Proof.
  unfold strings_HasSuffix. rewrite length_append.
  replace (String.length s + String.length t - String.length t)%nat
    with (String.length s) by lia.
  rewrite slice_from_app, String.eqb_refl.
  rewrite andb_true_r. apply Nat.leb_le. lia.
Qed.

Lemma HasSuffix_nonempty s t :
  t <> "" -> strings_HasSuffix s t = true -> s <> "".
Proof.
  intros Ht H ->. unfold strings_HasSuffix in H.
  destruct t; [congruence|discriminate].
Qed.

Lemma ToLower_nonempty s : strings_ToLower s <> "" -> s <> "".
Proof. intros H ->. apply H. reflexivity. Qed.

(** What every result of [sanitizeFilename] looks like. *)
Lemma sanitizeFilename_shape x :
  all_chars safe_char (sanitizeFilename x) = true
  /\ strings_HasSuffix (strings_ToLower (sanitizeFilename x)) ".mp3" = true.
Proof.
  unfold sanitizeFilename, ReplaceAllString.
  set (y := replace_from unsafeFilenameClass "_" 0 false (filepath_Base x)).
  assert (Hy : all_chars safe_char y = true)
    by (apply replace_unsafe_safe; left; reflexivity).
  destruct (strings_HasSuffix (strings_ToLower y) ".mp3") eqn:Hsuf;
    cbn [negb].
  - split; assumption.
  - split.
    + rewrite all_chars_app, Hy. reflexivity.
    + rewrite ToLower_app. apply HasSuffix_app.
Qed.

(** C9: filename sanitization is idempotent:
    [sanitize (sanitize x) = sanitize x] for every input string [x]. *)
Theorem sanitizeFilename_idempotent (x : string) :
  sanitizeFilename (sanitizeFilename x) = sanitizeFilename x.
Proof.
  destruct (sanitizeFilename_shape x) as [Hsafe Hsuf].
  set (y := sanitizeFilename x) in *.
  assert (Hne : y <> "").
  { apply ToLower_nonempty. eapply HasSuffix_nonempty; [|exact Hsuf].
    discriminate. }
  unfold sanitizeFilename at 1. unfold ReplaceAllString.
  rewrite (Base_no_sep y Hne (safe_no_sep y Hsafe)).
  rewrite (replace_safe_id y false Hsafe), Hsuf. reflexivity.
Qed.

(** C10: for every input string the output of [sanitizeFilename] is a
    non-empty string, every character of which belongs to
    [[A-Za-z0-9._-]]; it contains no path separator and is its own base
    name (no directory component); and it ends with [.mp3] when compared
    without regard to case. *)
Theorem sanitizeFilename_safe_name (x : string) :
  sanitizeFilename x <> ""
  /\ all_chars safe_char (sanitizeFilename x) = true
  /\ has_sep (sanitizeFilename x) = false
  /\ filepath_Base (sanitizeFilename x) = sanitizeFilename x
  /\ strings_HasSuffix (strings_ToLower (sanitizeFilename x)) ".mp3" = true.
Proof.
  destruct (sanitizeFilename_shape x) as [Hsafe Hsuf].
  assert (Hne : sanitizeFilename x <> "").
  { apply ToLower_nonempty. eapply HasSuffix_nonempty; [|exact Hsuf].
    discriminate. }
  repeat split; try assumption.
  - apply safe_no_sep, Hsafe.
  - apply Base_no_sep; [exact Hne|]. apply safe_no_sep, Hsafe.
Qed.

(** * validateShowID against the shape of a show key *)

Lemma key_class_match r :
  class_match validShowIDClass r = spec_key_char r.
Proof. destruct r as [c|]; [each_byte c|reflexivity]. Qed.

Lemma spec_key_char_ascii c :
  spec_key_char (if is_ascii c then RAscii c else RWide) = true ->
  is_ascii c = true.
Proof. destruct (is_ascii c); [reflexivity|discriminate]. Qed.

(** A key made of key characters has one byte per character. *)
Lemma key_runes_length s :
  forallb spec_key_char (runes s) = true ->
  List.length (runes s) = String.length s.
Proof.
  unfold runes. induction s as [|c s IH]; [reflexivity|].
  cbn [runes_from forallb List.length String.length].
  intros [Hc Hs]%andb_prop.
  rewrite (ascii_width_1 c s (spec_key_char_ascii c Hc)) in *.
  cbn [Nat.sub] in *. rewrite IH by exact Hs. reflexivity.
Qed.

Lemma forallb_key_class s :
  forallb (class_match validShowIDClass) (runes s)
  = forallb spec_key_char (runes s).
Proof.
  induction (runes s) as [|r rs IH]; [reflexivity|].
  cbn [forallb]. rewrite key_class_match, IH. reflexivity.
Qed.

Lemma match_anchored_plus_eq cls s :
  match_anchored_plus cls s
  = negb (Nat.eqb (List.length (runes s)) 0)
    && forallb (class_match cls) (runes s).
Proof. unfold match_anchored_plus. destruct (runes s); reflexivity. Qed.

Lemma validateShowID_accepts id :
  validateShowID id = None <-> spec_show_key id = true.
Proof.
  unfold validateShowID, spec_show_key, len, maxShowIDLength.
  rewrite match_anchored_plus_eq, forallb_key_class.
  destruct (forallb spec_key_char (runes id)) eqn:Hall.
  - rewrite (key_runes_length id Hall), !andb_true_r.
    destruct id as [|c s]; [split; discriminate|].
    cbn [String.eqb orb String.length Nat.eqb negb Nat.leb].
    destruct (50 <? Z.of_nat (S (String.length s))) eqn:Hlt.
    + apply Z.ltb_lt in Hlt. split; [discriminate|].
      intros H. apply Nat.leb_le in H. lia.
    + apply Z.ltb_ge in Hlt. split; [|reflexivity]. intros _.
      apply Nat.leb_le. lia.
  - rewrite !andb_false_r. split; [|discriminate].
    destruct (_ || _); discriminate.
Qed.

Lemma validateShowID_error id e :
  validateShowID id = Some e -> errors_Is e ErrInvalidShowID = true.
Proof.
  unfold validateShowID.
  destruct (_ || _); [intros [= <-]; reflexivity|].
  destruct (negb _); [intros [= <-]; reflexivity|discriminate].
Qed.

(** C7: show-key validation accepts exactly the strings of the shape
    [^[A-Za-z0-9_-]{1,50}$]; every other string is rejected with an error
    that is [ErrInvalidShowID], and then the resolver returns that error
    with the world untouched: no request was made. *)
Theorem validateShowID_exact (id : string) :
  match validateShowID id with
  | None => spec_show_key id = true
  | Some e =>
      spec_show_key id = false
      /\ errors_Is e ErrInvalidShowID = true
      /\ forall E w, getShowArchiveID E id w = (inl e, w)
  end.
Proof.
  destruct (validateShowID id) as [e|] eqn:Hv.
  - split; [|split].
    + destruct (spec_show_key id) eqn:Hs; [|reflexivity].
      apply validateShowID_accepts in Hs. congruence.
    + eapply validateShowID_error, Hv.
    + intros E w. unfold getShowArchiveID. rewrite Hv. reflexivity.
  - apply validateShowID_accepts, Hv.
Qed.

(** * The tree search of the resolver *)

Lemma last_default_irrelevant {A} (l : list A) (x a b : A) :
  List.last (x :: l) a = List.last (x :: l) b.
Proof.
  revert x. induction l as [|y l IH]; intros x; [reflexivity|].
  change (List.last (y :: l) a = List.last (y :: l) b). apply IH.
Qed.

Lemma last_app_default {A} (l1 l2 : list A) (a : A) :
  List.last (l1 ++ l2) a = List.last l2 (List.last l1 a).
Proof.
  revert a. induction l1 as [|x l1 IH]; intros a; [reflexivity|].
  destruct l1 as [|y l1].
  - destruct l2 as [|z l2]; [reflexivity|].
    change (List.last (z :: l2) a = List.last (z :: l2) x).
    apply last_default_irrelevant.
  - change (List.last ((y :: l1) ++ l2) a
            = List.last l2 (List.last (y :: l1) a)).
    apply IH.
Qed.

Lemma visit_last (cs : list Node) : forall a,
  Forall (fun c => forall a, f c a = List.last (matches c) a) cs ->
  (fix visit (cs : list Node) (archiveID : string) : string :=
     match cs with
     | [] => archiveID
     | c :: cs' => visit cs' (f c archiveID)
     end) cs a
  = List.last (flat_map matches cs) a.
Proof.
  induction cs as [|c cs IH]; intros a Hall; [reflexivity|].
  inversion Hall as [|? ? Hc Hcs]; subst.
  rewrite IH by exact Hcs. rewrite Hc. cbn [flat_map].
  rewrite last_app_default. reflexivity.
Qed.

(** The walk leaves in [archiveID] the value of the last match it met. *)
Lemma f_last_match (n : Node) : forall a, f n a = List.last (matches n) a.
Proof.
  induction n as [ty data attrs children IH] using Node_ind'.
  intros a. cbn [f matches].
  destruct (if is_element ty && String.eqb data "wmse-archive"
            then show_id_attr attrs else None); [reflexivity|].
  apply visit_last, IH.
Qed.

(** * The retry loop and the staging file *)

Lemma retry_frame_refl tmp w : retry_frame tmp w w.
Proof.
  repeat split; try tauto.
  exists []. rewrite app_nil_r. split; reflexivity.
Qed.

Lemma retry_frame_trans tmp w1 w2 w3 :
  retry_frame tmp w1 w2 -> retry_frame tmp w2 w3 -> retry_frame tmp w1 w3.
Proof.
  intros (Hd1 & (evs1 & Ht1 & Hr1) & Hf1 & Hs1)
         (Hd2 & (evs2 & Ht2 & Hr2) & Hf2 & Hs2).
  repeat split.
  - congruence.
  - exists (evs1 ++ evs2). rewrite Ht2, Ht1, <- app_assoc. split; [reflexivity|].
    rewrite forallb_app, Hr1, Hr2. reflexivity.
  - intros p Hp. rewrite Hf2, Hf1 by exact Hp. reflexivity.
  - intros H. apply Hs2, Hs1, H.
Qed.

Lemma retry_frame_emit tmp e w :
  is_retry_event e = true -> retry_frame tmp w (emit e w).
Proof.
  intros He. repeat split; try tauto.
  exists [e]. split; [reflexivity|]. cbn [forallb]. rewrite He. reflexivity.
Qed.

Lemma retry_frame_Do tmp url w resp w' :
  client_Do url w = (resp, w') -> retry_frame tmp w w'.
Proof.
  unfold client_Do. intros H.
  assert (Hw : fs w' = fs w /\ dirs w' = dirs w
               /\ trace w' = trace w ++ [EvRequest url]).
  { destruct (net (emit (EvRequest url) w));
      injection H as _ <-; repeat split; reflexivity. }
  destruct Hw as (Hfs & Hd & Ht). repeat split.
  - exact Hd.
  - exists [EvRequest url]. split; [exact Ht|reflexivity].
  - intros p _. rewrite Hfs. reflexivity.
  - rewrite Hfs. tauto.
Qed.

Lemma retry_frame_Write tmp data w : retry_frame tmp w (file_Write tmp data w).
Proof.
  repeat split.
  - exists []. rewrite app_nil_r. split; reflexivity.
  - intros p Hp. cbn [file_Write fs]. apply lookup_insert_ne. congruence.
  - intros _. cbn [file_Write fs]. rewrite lookup_insert_eq. eauto.
Qed.

Lemma backoff_frame tmp attempt lastErr w :
  retry_frame tmp w (backoff attempt lastErr w).
Proof.
  unfold backoff. destruct (1 <? attempt); [|apply retry_frame_refl].
  eapply retry_frame_trans; apply retry_frame_emit; reflexivity.
Qed.

Lemma attempt_once_frame E a tmp w r w' :
  attempt_once E a tmp w = (r, w') -> retry_frame tmp w w'.
Proof.
  unfold attempt_once.
  destruct (NewRequest_err E (ArchiveURL a)).
  { intros [= _ <-]. apply retry_frame_refl. }
  destruct (client_Do (ArchiveURL a) w) as [resp w2] eqn:HDo.
  apply (retry_frame_Do tmp) in HDo.
  destruct resp as [err|code status body].
  { intros [= _ <-]. exact HDo. }
  destruct (negb (code =? StatusOK)).
  { intros [= _ <-]. exact HDo. }
  unfold io_Copy.
  set (w3 := file_Write tmp _ w2).
  assert (H3 : retry_frame tmp w w3).
  { eapply retry_frame_trans; [exact HDo|]. apply retry_frame_Write. }
  clearbody w3.
  destruct (copy_error body (maxFileSize + 1)).
  { intros [= _ <-]. exact H3. }
  destruct (maxFileSize <? _); intros [= _ <-]; exact H3.
Qed.

Lemma retry_loop_frame E a tmp attempts : forall lastErr w r w',
  retry_loop E a tmp attempts lastErr w = (r, w') -> retry_frame tmp w w'.
Proof.
  induction attempts as [|attempt rest IH]; intros lastErr w r w' H;
    cbn [retry_loop] in H.
  { injection H as _ <-. apply retry_frame_refl. }
  destruct (attempt_once E a tmp (backoff attempt lastErr w))
    as [[e|] w1] eqn:Honce;
    apply attempt_once_frame in Honce;
    (eapply retry_frame_trans; [apply backoff_frame|]);
    (eapply retry_frame_trans; [exact Honce|]).
  - eapply IH, H.
  - injection H as _ <-. apply retry_frame_refl.
Qed.

Lemma tmp_differs (path : string) : path <> path +:+ ".tmp".
Proof.
  intros H. apply (f_equal String.length) in H.
  rewrite length_append in H. cbn [String.length] in H. lia.
Qed.

Lemma Stat_false_lookup path w : os_Stat_ok path w = false -> fs w !! path = None.
Proof.
  unfold os_Stat_ok. intros [H _]%orb_false_elim.
  apply bool_decide_eq_false in H.
  destruct (fs w !! path) eqn:Hl; [|reflexivity]. exfalso. apply H. eauto.
Qed.

Lemma count_outcomes_app l1 l2 :
  count_outcomes (l1 ++ l2) = (count_outcomes l1 + count_outcomes l2)%nat.
Proof. unfold count_outcomes. rewrite List.filter_app, length_app. reflexivity. Qed.

Lemma retry_event_not_outcome e :
  is_retry_event e = true -> is_outcome_event e = false.
Proof.
  destruct e as [d|url|lvl msg attrs err]; try reflexivity.
  destruct lvl; try discriminate. cbn [is_retry_event is_outcome_event].
  intros ->%String.eqb_eq. reflexivity.
Qed.

Lemma count_outcomes_retry evs :
  forallb is_retry_event evs = true -> count_outcomes evs = 0%nat.
Proof.
  unfold count_outcomes. induction evs as [|e evs IH]; [reflexivity|].
  cbn [forallb List.filter]. intros [He Hevs]%andb_prop.
  rewrite (retry_event_not_outcome e He). apply IH, Hevs.
Qed.

(** * downloadShow, path by path *)

Lemma downloadShow_no_url E a outDir delay w :
  ArchiveURL a = "" ->
  downloadShow E a outDir delay w
  = (Some (Errorf "no MP3 URL available for archive: %s" [ShowID a]), w).
Proof. intros H. unfold downloadShow. rewrite H. reflexivity. Qed.

Lemma downloadShow_skip E a outDir delay w :
  ArchiveURL a <> "" ->
  os_Stat_ok (destination E a outDir) w = true ->
  downloadShow E a outDir delay w
  = (None,
     logger Info "Skipping existing file"
       [("filename",
         sanitizeFilename (PlaylistDate a +:+ "_" +:+ ShowID a +:+ ".mp3"))]
       None w).
Proof.
  intros Hurl Hstat. unfold downloadShow.
  apply String.eqb_neq in Hurl. rewrite Hurl.
  fold (destination E a outDir). rewrite Hstat. reflexivity.
Qed.

(** Once the download has started: what the trace and the two paths look
    like when [downloadShow] returns. *)
Lemma downloadShow_started E a outDir delay w r w' :
  ArchiveURL a <> "" ->
  os_Stat_ok (destination E a outDir) w = false ->
  downloadShow E a outDir delay w = (r, w') ->
  exists evs,
    trace w' =
      trace w
      ++ EvLog Info "Downloading show"
           [("date", PlaylistDate a); ("url", ArchiveURL a)] None :: evs
    /\ match r with
       | Some _ =>
           forallb is_retry_event evs = true
           /\ fs w' !! destination E a outDir = None
           /\ (os_fault E OpMkdirAll outDir = None ->
               os_fault E OpCreate (destination E a outDir +:+ ".tmp") = None ->
               is_Some (fs w' !! (destination E a outDir +:+ ".tmp")))
       | None =>
           exists evs0 name,
             evs = evs0 ++ [EvLog Info "Downloaded file" [("filename", name)] None;
                            EvSleep delay]
             /\ forallb is_retry_event evs0 = true
             /\ is_Some (fs w' !! destination E a outDir)
             /\ fs w' !! (destination E a outDir +:+ ".tmp") = None
       end.
Proof.
  intros Hurl Hstat. unfold downloadShow.
  apply String.eqb_neq in Hurl. rewrite Hurl.
  fold (destination E a outDir). rewrite Hstat.
  set (out := destination E a outDir) in *.
  set (tmp := out +:+ ".tmp").
  pose proof (Stat_false_lookup out w Hstat) as Hout.
  set (w0 := logger Info "Downloading show" _ None w).
  unfold os_MkdirAll.
  destruct (os_fault E OpMkdirAll outDir) as [e|] eqn:Hmk.
  { intros [= <- <-]. exists []. split; [reflexivity|].
    repeat split; [exact Hout|discriminate]. }
  unfold os_Create.
  destruct (os_fault E OpCreate tmp) as [e|] eqn:Hcr.
  { intros [= <- <-]. exists []. split; [reflexivity|].
    repeat split; [exact Hout|discriminate]. }
  set (w2 := mkWorld (<[tmp:=""]> _) _ _ _).
  unfold download_body.
  destruct (retry_loop E a tmp attempt_range None w2) as [lastErr w3] eqn:Hloop.
  apply retry_loop_frame in Hloop as (Hd & (evs & Ht & Hr) & Hf & Hs).
  assert (Htmp : is_Some (fs w3 !! tmp)).
  { apply Hs. subst w2. cbn [fs]. rewrite lookup_insert_eq. eauto. }
  assert (Hout3 : fs w3 !! out = None).
  { rewrite Hf by apply tmp_differs. subst w2. cbn [fs].
    rewrite lookup_insert_ne by (intros H; symmetry in H; revert H; apply tmp_differs).
    exact Hout. }
  assert (Hfail :
    exists evs0,
      trace w3 = trace w ++ EvLog Info "Downloading show"
           [("date", PlaylistDate a); ("url", ArchiveURL a)] None :: evs0
      /\ forallb is_retry_event evs0 = true
         /\ fs w3 !! out = None
         /\ (@None error = None -> @None error = None -> is_Some (fs w3 !! tmp))).
  { exists evs. split; [|auto].
    rewrite Ht. subst w2 w0. cbn [trace logger emit].
    rewrite <- app_assoc. reflexivity. }
  destruct lastErr as [e|].
  { intros [= <- <-]. exact Hfail. }
  destruct (file_Sync E tmp) as [e|].
  { intros [= <- <-]. exact Hfail. }
  destruct (file_Close E tmp) as [e|].
  { intros [= <- <-]. exact Hfail. }
  unfold os_Rename.
  destruct (os_fault E OpRename tmp) as [e|].
  { intros [= <- <-]. exact Hfail. }
  destruct Htmp as [content Hcontent]. rewrite Hcontent.
  intros [= <- <-]. eexists. split.
  - cbn [trace time_Sleep logger emit deferred_cleanup]. rewrite Ht.
    subst w2 w0. cbn [trace logger emit].
    rewrite <- !app_assoc. reflexivity.
  - exists evs. eexists. split; [reflexivity|]. split; [exact Hr|].
    cbn [fs time_Sleep logger emit deferred_cleanup]. split.
    + rewrite lookup_insert_eq. eauto.
    + rewrite lookup_insert_ne
        by (intros H; revert H; apply tmp_differs).
      apply lookup_delete_eq.
Qed.

(** C4: an entry with a non-empty [archiveUrl] whose destination file
    already exists is skipped: [downloadShow] returns success, sends no
    request, leaves files, directories and the pending responses as they
    were, and adds one log line to the trace. *)
Theorem downloadShow_existing_file
    (E : Env) (a : Archive) (outDir : string) (delay : Z) (w : World) :
  ArchiveURL a <> "" ->
  os_Stat_ok (destination E a outDir) w = true ->
  exists w' name,
    downloadShow E a outDir delay w = (None, w')
    /\ fs w' = fs w /\ dirs w' = dirs w /\ net w' = net w
    /\ trace w' = trace w ++ [EvLog Info "Skipping existing file"
                                [("filename", name)] None].
Proof.
  intros Hurl Hstat. eexists. eexists. split.
  - apply downloadShow_skip; assumption.
  - repeat split; reflexivity.
Qed.

Lemma downloadShow_existing_file_witness :
  exists w' name,
    downloadShow (scenario_env one_archive_doc [entry_ded]) entry_ded
      "archives" five_seconds (downloaded_world [server_error]) = (None, w')
    /\ fs w' = fs (downloaded_world [server_error])
    /\ dirs w' = dirs (downloaded_world [server_error])
    /\ net w' = net (downloaded_world [server_error])
    /\ trace w' = trace (downloaded_world [server_error])
                  ++ [EvLog Info "Skipping existing file"
                        [("filename", name)] None].
Proof.
  apply downloadShow_existing_file; [discriminate|vm_compute; reflexivity].
Defined.

(** C4 as stated fails for an entry without URL: its destination file
    exists, and the transfer returns an error instead of success. *)
Lemma existing_file_without_url_fails :
  ~ (forall (E : Env) (a : Archive) (outDir : string) (delay : Z) (w : World),
        os_Stat_ok (destination E a outDir) w = true ->
        fst (downloadShow E a outDir delay w) = None).
Proof.
  intros H.
  specialize (H (scenario_env one_archive_doc [entry_no_url]) entry_no_url
                "archives" five_seconds (downloaded_world [])).
  vm_compute in H. specialize (H eq_refl). discriminate H.
Qed.

(** C6: when the entry has no URL the transfer returns at once; when its
    destination exists it logs the skip and returns; in both cases it
    does not sleep.  When the download succeeds the transfer ends with
    the sleep of the configured delay, right after reporting the
    downloaded file. *)
Theorem downloadShow_pacing
    (E : Env) (a : Archive) (outDir : string) (delay : Z) (w : World) :
  if String.eqb (ArchiveURL a) "" then
    trace (snd (downloadShow E a outDir delay w)) = trace w
  else if os_Stat_ok (destination E a outDir) w then
    exists name,
      trace (snd (downloadShow E a outDir delay w))
      = trace w ++ [EvLog Info "Skipping existing file"
                      [("filename", name)] None]
  else
    match fst (downloadShow E a outDir delay w) with
    | None =>
        exists evs name,
          trace (snd (downloadShow E a outDir delay w))
          = trace w ++ evs
            ++ [EvLog Info "Downloaded file" [("filename", name)] None;
                EvSleep delay]
    | Some _ => True
    end.
Proof.
  destruct (String.eqb (ArchiveURL a) "") eqn:Hurl.
  { apply String.eqb_eq in Hurl.
    rewrite downloadShow_no_url by exact Hurl. reflexivity. }
  apply String.eqb_neq in Hurl.
  destruct (os_Stat_ok (destination E a outDir) w) eqn:Hstat.
  { rewrite downloadShow_skip by assumption. eexists. reflexivity. }
  destruct (downloadShow E a outDir delay w) as [r w'] eqn:Hrun.
  destruct (downloadShow_started E a outDir delay w r w' Hurl Hstat Hrun)
    as (evs & Ht & Hr).
  cbn [fst snd]. destruct r as [e|]; [exact I|].
  destruct Hr as (evs0 & name & -> & _).
  eexists (_ :: evs0), name. rewrite Ht. reflexivity.
Qed.

(** C6 as stated fails on the skip path: the destination exists, the
    transfer returns, and no sleep of the delay ends its trace. *)
Lemma skip_does_not_sleep :
  ~ (forall (E : Env) (a : Archive) (outDir : string) (delay : Z) (w : World),
        exists evs,
          trace (snd (downloadShow E a outDir delay w))
          = trace w ++ evs ++ [EvSleep delay]).
Proof.
  intros H.
  destruct (H (scenario_env one_archive_doc [entry_ded]) entry_ded
              "archives" five_seconds (downloaded_world [])) as [evs Hevs].
  vm_compute in Hevs.
  destruct evs as [|e1 [|e2 evs]]; discriminate Hevs.
Qed.

(** C1: an entry with a URL and no destination file, against a server
    that answers 500 to all three attempts.  [downloadShow] returns the
    error of the last attempt after three requests and nothing is stored
    at the destination, but the staging file [destination.tmp] is still
    there: the deferred clean-up tests the [err] of [os.Create], which is
    nil. *)
Theorem exhausted_retries_keep_staging_file :
  let E := scenario_env one_archive_doc [entry_ded] in
  let w := empty_world [server_error; server_error; server_error] in
  let run := downloadShow E entry_ded "archives" five_seconds w in
  os_Stat_ok (destination E entry_ded "archives") w = false
  /\ fst run = Some (Errorf "bad status downloading %s: %s"
                       ["https://x/y.mp3"; "500 Internal Server Error"])
  /\ List.length (List.filter is_request (trace (snd run))) = 3%nat
  /\ fs (snd run) !! destination E entry_ded "archives" = None
  /\ fs (snd run) !! (destination E entry_ded "archives" +:+ ".tmp") = Some "".
Proof. vm_compute. repeat split. Qed.

(** Whenever [downloadShow] fails after it created the staging file, the
    staging file is left behind and the destination stays absent. *)
Lemma failed_download_keeps_staging_file
    (E : Env) (a : Archive) (outDir : string) (delay : Z) (w w' : World)
    (e : error) :
  ArchiveURL a <> "" ->
  os_Stat_ok (destination E a outDir) w = false ->
  os_fault E OpMkdirAll outDir = None ->
  os_fault E OpCreate (destination E a outDir +:+ ".tmp") = None ->
  downloadShow E a outDir delay w = (Some e, w') ->
  is_Some (fs w' !! (destination E a outDir +:+ ".tmp"))
  /\ fs w' !! destination E a outDir = None.
Proof.
  intros Hurl Hstat Hmk Hcr Hrun.
  destruct (downloadShow_started E a outDir delay w _ _ Hurl Hstat Hrun)
    as (evs & _ & _ & Hout & Htmp).
  split; [apply Htmp; assumption|exact Hout].
Qed.

(** C2: the first attempt breaks after the bytes [AB] were written, the
    second gets a 500, the third retrieves [CD].  The sleeps are 4 s and
    6 s (then the delay), the staging file is promoted, and the final
    file holds [ABCD]: the bytes of the broken attempt are still in
    front of the retrieved ones. *)
Theorem retry_appends_to_partial_file :
  let E := scenario_env one_archive_doc [entry_ded] in
  let w := empty_world [Resp 200 "200 OK" (broken_body "AB"); server_error;
                        Resp 200 "200 OK" (ok_body "CD")] in
  let run := downloadShow E entry_ded "archives" five_seconds w in
  fst run = None
  /\ sleeps (trace (snd run)) = [4 * Second; 6 * Second; five_seconds]
  /\ fs (snd run) !! (destination E entry_ded "archives" +:+ ".tmp") = None
  /\ fs (snd run) !! destination E entry_ded "archives" = Some "ABCD".
Proof. vm_compute. repeat split. Qed.

(** C3: a page with two [wmse-archive] elements, [show-id] 1 and then 2.
    The walk meets the matches in that order and the resolver returns
    the second one. *)
Theorem resolver_returns_last_match :
  let E := scenario_env two_archives_doc [] in
  let w := empty_world [Resp 200 "200 OK" (ok_body "<html>")] in
  matches two_archives_doc = ["1"; "2"]
  /\ f two_archives_doc "" = "2"
  /\ fst (getShowArchiveID E "ded" w) = inr "2".
Proof. vm_compute. repeat split. Qed.

(** C8: a listing of 1001 entries, one more than [maxArchiveLinks], is
    handed back whole by [fetchArchives]. *)
Theorem fetchArchives_returns_oversized_catalog :
  let catalog := repeat entry_ded 1001 in
  let E := scenario_env one_archive_doc catalog in
  let w := empty_world [Resp 200 "200 OK" (ok_body "[ 1001 entries ]")] in
  maxArchiveLinks < Z.of_nat (List.length catalog)
  /\ fst (fetchArchives E "42" w) = inr catalog.
Proof. vm_compute. repeat split. Qed.

(** [fetchArchives] returns whatever the decoder produced from a 200
    response: neither the size of the body nor the number of entries is
    looked at. *)
Lemma fetchArchives_returns_decoded
    (E : Env) (archiveID status : string) (body : Body) (rest : list Response)
    (archives : list Archive) (w : World) :
  NewRequest_err E (apiURL +:+ "/api/shows/" +:+ archiveID) = None ->
  net w = Resp StatusOK status body :: rest ->
  json_Decode E body = inr archives ->
  fst (fetchArchives E archiveID w) = inr archives.
Proof.
  intros Hreq Hnet Hdec. unfold fetchArchives, client_Do.
  rewrite Hreq. cbn [emit net]. rewrite Hnet.
  cbn [Z.eqb StatusOK Pos.eqb negb]. rewrite Hdec. reflexivity.
Qed.

(** * The driver *)

(** One call of [downloadShow] adds exactly one outcome event when it
    succeeds (skip or download) and none when it fails. *)
Lemma downloadShow_outcome E a outDir delay w r w' :
  downloadShow E a outDir delay w = (r, w') ->
  exists evs,
    trace w' = trace w ++ evs
    /\ count_outcomes evs = match r with None => 1%nat | Some _ => 0%nat end.
Proof.
  intros Hrun.
  destruct (String.eqb (ArchiveURL a) "") eqn:Hurl.
  { apply String.eqb_eq in Hurl.
    rewrite downloadShow_no_url in Hrun by exact Hurl.
    injection Hrun as <- <-. exists []. rewrite app_nil_r. split; reflexivity. }
  apply String.eqb_neq in Hurl.
  destruct (os_Stat_ok (destination E a outDir) w) eqn:Hstat.
  { rewrite downloadShow_skip in Hrun by assumption.
    injection Hrun as <- <-. eexists. split; reflexivity. }
  destruct (downloadShow_started E a outDir delay w r w' Hurl Hstat Hrun)
    as (evs & Ht & Hr).
  eexists. split; [exact Ht|].
  change (?e :: evs) with ([e] ++ evs). rewrite count_outcomes_app.
  destruct r as [e|].
  - destruct Hr as (Hretry & _). rewrite (count_outcomes_retry evs Hretry).
    reflexivity.
  - destruct Hr as (evs0 & name & -> & Hretry & _).
    rewrite count_outcomes_app, (count_outcomes_retry evs0 Hretry).
    reflexivity.
Qed.

(** The loop of [main] handles every entry: each one adds exactly one
    outcome event, whether its transfer failed or not. *)
Lemma download_each_outcomes E outDir delay archives : forall w,
  count_outcomes (trace (download_each E archives outDir delay w))
  = (count_outcomes (trace w) + List.length archives)%nat.
Proof.
  induction archives as [|a rest IH]; intros w; cbn [download_each List.length].
  { lia. }
  destruct (downloadShow E a outDir delay w) as [r w1] eqn:Hrun.
  apply downloadShow_outcome in Hrun as (evs & Ht & Hcount).
  rewrite IH. destruct r as [e|]; cbn [trace logger emit];
    rewrite Ht, !count_outcomes_app, Hcount; cbn; lia.
Qed.

(** The loop of [main] is a batch in the sense of the design. *)
Lemma download_each_batch E outDir delay archives : forall w,
  spec_batch_run E outDir delay archives w
    (download_each E archives outDir delay w).
Proof.
  induction archives as [|a rest IH]; intros w; cbn [download_each].
  { constructor. }
  destruct (downloadShow E a outDir delay w) as [[err|] w1] eqn:Hrun.
  - eapply batch_failed; [exact Hrun|apply IH].
  - eapply batch_transferred; [exact Hrun|apply IH].
Qed.

Lemma spec_batch_unique E outDir delay archives w w1 :
  spec_batch_run E outDir delay archives w w1 ->
  forall w2, spec_batch_run E outDir delay archives w w2 -> w1 = w2.
Proof.
  induction 1 as [w|a rest w u w1 Hrun _ IH|a rest w u w1 err Hrun _ IH];
    intros w2 H2; inversion H2; subst; try reflexivity;
    match goal with
    | H : downloadShow _ _ _ _ _ = _ |- _ => rewrite Hrun in H; inversion H
    end; subst; apply IH; assumption.
Qed.

Lemma spec_batch_trace E outDir delay archives w w' :
  spec_batch_run E outDir delay archives w w' ->
  exists evs, trace w' = trace w ++ evs.
Proof.
  induction 1 as [w|a rest w u w1 Hrun _ IH|a rest w u w1 err Hrun _ IH].
  - exists []. rewrite app_nil_r. reflexivity.
  - apply downloadShow_outcome in Hrun as (evs & Ht & _).
    destruct IH as (evs' & Ht'). exists (evs ++ evs').
    rewrite Ht', Ht, <- app_assoc. reflexivity.
  - apply downloadShow_outcome in Hrun as (evs & Ht & _).
    destruct IH as (evs' & Ht'). cbn [trace logger emit] in Ht'.
    eexists. rewrite Ht', Ht, <- !app_assoc. reflexivity.
Qed.

(** In a batch every entry has its turn: the entry at any position is
    transferred in the world the entries before it left, and the events
    of that transfer, followed by the failure line when it failed, are
    in the trace the batch ends with. *)
Lemma spec_batch_position E outDir delay pre a post : forall w w',
  spec_batch_run E outDir delay (pre ++ a :: post) w w' ->
  exists v later,
    spec_batch_run E outDir delay pre w v
    /\ trace w'
       = trace (snd (downloadShow E a outDir delay v))
         ++ match fst (downloadShow E a outDir delay v) with
            | Some err =>
                [EvLog Error "Download failed" [("archive", ShowID a)]
                   (Some err)]
            | None => []
            end
         ++ later.
Proof.
  induction pre as [|b pre IH]; intros w w' H.
  - exists w. inversion H as [|? ? ? u ? Hrun Hrest|? ? ? u ? err Hrun Hrest];
      subst; apply spec_batch_trace in Hrest as (later & Ht);
      exists later; (split; [constructor|]); rewrite Hrun; cbn [fst snd].
    + exact Ht.
    + rewrite Ht. cbn [trace logger emit]. rewrite <- app_assoc. reflexivity.
  - inversion H as [|? ? ? u ? Hrun Hrest|? ? ? u ? err Hrun Hrest]; subst;
      destruct (IH _ _ Hrest) as (v & later & Hpre & Ht);
      exists v, later; (split; [|exact Ht]).
    + eapply batch_transferred; eassumption.
    + eapply batch_failed; eassumption.
Qed.

(** C5: the exit status of [main] is 0 exactly when the resolver
    returned an archive identifier, the catalog fetch returned a list and
    the list is not empty; otherwise it is 1, an empty catalog included.
    In the first case the driver goes through the whole catalog,
    whatever the transfers return: the run ends in the world of the
    batch over the catalog, and in no other; the entry at every position
    is handed to [downloadShow] in the world the entries before it left,
    and when that transfer fails its error is logged with the show id
    of the entry; every entry leaves one outcome event (skipped,
    downloaded, or the logged failure). *)
Theorem main_exit_status
    (E : Env) (showID outDir : string) (delay : Z) (w : World) :
  let w0 := logger Info "Starting archive download"
              [("show_id", showID); ("output_dir", outDir)] None w in
  let run := main E showID outDir delay w in
  (fst run = 0 <->
     exists archiveID w1 archives w2,
       getShowArchiveID E showID w0 = (inr archiveID, w1)
       /\ fetchArchives E archiveID w1 = (inr archives, w2)
       /\ archives <> [])
  /\ (fst run = 0 \/ fst run = 1)
  /\ (forall archiveID w1 archives w2,
        getShowArchiveID E showID w0 = (inr archiveID, w1) ->
        fetchArchives E archiveID w1 = (inr archives, w2) ->
        archives <> [] ->
        snd run = download_each E archives outDir delay w2
        /\ count_outcomes (trace (snd run))
           = (count_outcomes (trace w2) + List.length archives)%nat
        /\ spec_batch_run E outDir delay archives w2 (snd run)
        /\ (forall w', spec_batch_run E outDir delay archives w2 w' ->
                       w' = snd run)
        /\ (forall pre a post,
              archives = pre ++ a :: post ->
              exists v later,
                spec_batch_run E outDir delay pre w2 v
                /\ trace (snd run)
                   = trace (snd (downloadShow E a outDir delay v))
                     ++ match fst (downloadShow E a outDir delay v) with
                        | Some err =>
                            [EvLog Error "Download failed"
                               [("archive", ShowID a)] (Some err)]
                        | None => []
                        end
                     ++ later)).
Proof.
  intros w0 run. subst run. unfold main. fold w0.
  destruct (getShowArchiveID E showID w0) as [[err|archiveID] w1] eqn:Hres.
  { cbn [fst snd]. split; [|split].
    - split; [discriminate|]. intros (? & ? & ? & ? & [=] & _).
    - right; reflexivity.
    - intros ? ? ? ? [=]. }
  destruct (fetchArchives E archiveID w1) as [[err|archives] w2] eqn:Hfetch.
  { cbn [fst snd]. split; [|split].
    - split; [discriminate|].
      intros (? & ? & ? & ? & [= <- <-] & H & _). congruence.
    - right; reflexivity.
    - intros ? ? ? ? [= <- <-] H. congruence. }
  destruct archives as [|a rest].
  { cbn [fst snd List.length Nat.eqb]. split; [|split].
    - split; [discriminate|].
      intros (? & ? & ? & ? & [= <- <-] & H & Hne).
      rewrite Hfetch in H. injection H as <- <-. congruence.
    - right; reflexivity.
    - intros ? ? ? ? [= <- <-] H Hne.
      rewrite Hfetch in H. injection H as <- <-. congruence. }
  cbn [List.length Nat.eqb fst snd]. split; [|split].
  - split; [|reflexivity]. intros _.
    exists archiveID, w1, (a :: rest), w2. repeat split; [exact Hfetch|discriminate].
  - left; reflexivity.
  - intros ? ? ? ? [= <- <-] H _. rewrite Hfetch in H. injection H as <- <-.
    split; [reflexivity|]. split; [apply download_each_outcomes|].
    split; [apply download_each_batch|]. split.
    + intros w' Hb. eapply spec_batch_unique; [exact Hb|].
      apply download_each_batch.
    + intros pre b post Heq. apply (spec_batch_position _ _ _ pre b post).
      rewrite <- Heq. apply download_each_batch.
Qed.

(** A run in which every transfer fails: two entries without URL.  Both
    failures are logged and the exit status is 0. *)
Example main_all_transfers_fail :
  let E := scenario_env one_archive_doc [entry_no_url; entry_no_url] in
  let w := empty_world [Resp 200 "200 OK" (ok_body "<html>");
                        Resp 200 "200 OK" (ok_body "[ 2 entries ]")] in
  let run := main E "ded" "archives" five_seconds w in
  fst run = 0
  /\ List.filter is_outcome_event (trace (snd run))
     = [EvLog Error "Download failed" [("archive", "ded")]
          (Some (Errorf "no MP3 URL available for archive: %s" ["ded"]));
        EvLog Error "Download failed" [("archive", "ded")]
          (Some (Errorf "no MP3 URL available for archive: %s" ["ded"]))].
Proof. vm_compute. repeat split. Qed.

(** An empty catalog ends the run with status 1. *)
Example main_empty_catalog :
  let E := scenario_env one_archive_doc [] in
  let w := empty_world [Resp 200 "200 OK" (ok_body "<html>");
                        Resp 200 "200 OK" (ok_body "[]")] in
  fst (main E "ded" "archives" five_seconds w) = 1.
Proof. vm_compute. reflexivity. Qed.

(** * What the staging file holds after retries *)

Lemma append_empty_r s : s +:+ "" = s.
Proof.
  induction s as [|c s IH]; [reflexivity|].
  rewrite append_cons, IH. reflexivity.
Qed.

Lemma append_assoc s t u : (s +:+ t) +:+ u = s +:+ t +:+ u.
Proof.
  induction s as [|c s IH]; [reflexivity|].
  rewrite !append_cons, IH. reflexivity.
Qed.

Lemma take_bytes_all s : forall n, len s <= n -> take_bytes n s = s.
Proof.
  unfold len. induction s as [|c s IH]; intros n Hn; [reflexivity|].
  cbn [take_bytes String.length] in *.
  destruct (n <=? 0) eqn:Hle; [apply Z.leb_le in Hle; lia|].
  rewrite IH by lia. reflexivity.
Qed.

Lemma sleeps_app l1 l2 : sleeps (l1 ++ l2) = sleeps l1 ++ sleeps l2.
Proof. unfold sleeps. apply flat_map_app. Qed.

(** One attempt against the response [r]: it fails exactly when [r] is a
    failing response, and in either case the bytes it received are
    appended to the staging file. *)
Lemma attempt_once_response E a tmp w r rest old :
  NewRequest_err E (ArchiveURL a) = None ->
  net w = r :: rest ->
  fs w !! tmp = Some old ->
  exists res w',
    attempt_once E a tmp w = (res, w')
    /\ (if failing_response r then is_Some res else res = None)
    /\ net w' = rest
    /\ trace w' = trace w ++ [EvRequest (ArchiveURL a)]
    /\ fs w' !! tmp = Some (old +:+ staged_bytes r).
Proof.
  intros Hreq Hnet Hold. unfold attempt_once, client_Do. rewrite Hreq.
  cbn [emit net]. rewrite Hnet.
  destruct r as [err|code status body]; cbn [failing_response staged_bytes].
  { do 2 eexists. split; [reflexivity|]. cbn [net trace fs].
    rewrite append_empty_r. eauto. }
  destruct (code =? StatusOK); cbn [negb orb].
  2:{ do 2 eexists. split; [reflexivity|]. cbn [net trace fs].
      rewrite append_empty_r. eauto. }
  unfold io_Copy.
  destruct (copy_error body (maxFileSize + 1)) as [err|].
  { do 2 eexists. split; [reflexivity|].
    cbn [net trace fs file_Write emit]. rewrite Hold, lookup_insert_eq. eauto. }
  destruct (maxFileSize <? len (take_bytes (maxFileSize + 1) (body_data body))).
  - do 2 eexists. split; [reflexivity|].
    cbn [net trace fs file_Write emit]. rewrite Hold, lookup_insert_eq. eauto.
  - do 2 eexists. split; [reflexivity|].
    cbn [net trace fs file_Write emit]. rewrite Hold, lookup_insert_eq. eauto.
Qed.

(** Two failing attempts and a third that succeeds: the loop sleeps 4 s
    and 6 s, and the staging file grows by the bytes of all three
    attempts. *)
Lemma retry_loop_third_attempt E a tmp w r1 r2 r3 rest old :
  NewRequest_err E (ArchiveURL a) = None ->
  net w = r1 :: r2 :: r3 :: rest ->
  fs w !! tmp = Some old ->
  failing_response r1 = true ->
  failing_response r2 = true ->
  failing_response r3 = false ->
  exists w',
    retry_loop E a tmp attempt_range None w = (None, w')
    /\ fs w' !! tmp
       = Some (old +:+ staged_bytes r1 +:+ staged_bytes r2 +:+ staged_bytes r3)
    /\ sleeps (trace w') = sleeps (trace w) ++ [4 * Second; 6 * Second].
Proof.
  intros Hreq Hnet Hold Hf1 Hf2 Hf3.
  change attempt_range with [1; 2; 3]. cbn [retry_loop].
  change (backoff 1 None w) with w.
  destruct (attempt_once_response E a tmp w r1 _ old Hreq Hnet Hold)
    as (res1 & w1 & -> & Hres1 & Hnet1 & Ht1 & Hfs1).
  rewrite Hf1 in Hres1. destruct Hres1 as [e1 ->].
  set (w1' := backoff 2 (Some e1) w1).
  destruct (attempt_once_response E a tmp w1' r2 (r3 :: rest)
              (old +:+ staged_bytes r1) Hreq Hnet1 Hfs1)
    as (res2 & w2 & -> & Hres2 & Hnet2 & Ht2 & Hfs2).
  rewrite Hf2 in Hres2. destruct Hres2 as [e2 ->].
  set (w2' := backoff 3 (Some e2) w2).
  destruct (attempt_once_response E a tmp w2' r3 rest
              ((old +:+ staged_bytes r1) +:+ staged_bytes r2) Hreq Hnet2 Hfs2)
    as (res3 & w3 & -> & Hres3 & Hnet3 & Ht3 & Hfs3).
  rewrite Hf3 in Hres3. subst res3.
  exists w3. split; [reflexivity|]. split.
  - rewrite Hfs3, !append_assoc. reflexivity.
  - rewrite Ht3. subst w2'. cbn [backoff Z.ltb Z.compare Pos.compare
      Pos.compare_cont trace time_Sleep logger emit].
    rewrite Ht2. subst w1'. cbn [backoff Z.ltb Z.compare Pos.compare
      Pos.compare_cont trace time_Sleep logger emit].
    rewrite Ht1, !sleeps_app. cbn [sleeps flat_map app].
    rewrite !app_nil_r, <- app_assoc. reflexivity.
Qed.

(** The same at the level of [downloadShow], on a platform without
    faults: the promoted file holds whatever the two failed attempts
    wrote, followed by the bytes of the third. *)
Lemma downloadShow_third_attempt
    (E : Env) (a : Archive) (outDir : string) (delay : Z) (w : World)
    (r1 r2 r3 : Response) (rest : list Response) :
  ArchiveURL a <> "" ->
  os_Stat_ok (destination E a outDir) w = false ->
  (forall op path, os_fault E op path = None) ->
  NewRequest_err E (ArchiveURL a) = None ->
  net w = r1 :: r2 :: r3 :: rest ->
  failing_response r1 = true ->
  failing_response r2 = true ->
  failing_response r3 = false ->
  exists w',
    downloadShow E a outDir delay w = (None, w')
    /\ fs w' !! destination E a outDir
       = Some (staged_bytes r1 +:+ staged_bytes r2 +:+ staged_bytes r3)
    /\ sleeps (trace w') = sleeps (trace w) ++ [4 * Second; 6 * Second; delay].
Proof.
  intros Hurl Hstat Hfault Hreq Hnet Hf1 Hf2 Hf3.
  unfold downloadShow. apply String.eqb_neq in Hurl. rewrite Hurl.
  fold (destination E a outDir). rewrite Hstat.
  set (out := destination E a outDir).
  set (tmp := out +:+ ".tmp").
  unfold os_MkdirAll, os_Create. rewrite !Hfault.
  set (w2 := mkWorld (<[tmp:=""]> _) _ _ _).
  destruct (retry_loop_third_attempt E a tmp w2 r1 r2 r3 rest ""
              Hreq Hnet (lookup_insert_eq _ _ _) Hf1 Hf2 Hf3)
    as (w3 & Hloop & Hfs3 & Hsl3).
  unfold download_body. rewrite Hloop.
  unfold file_Sync, file_Close, os_Rename. rewrite !Hfault, Hfs3.
  eexists. split; [reflexivity|].
  cbn [deferred_cleanup fs trace time_Sleep logger emit]. split.
  - rewrite lookup_insert_eq. reflexivity.
  - rewrite !sleeps_app, Hsl3. subst w2.
    cbn [trace logger emit]. rewrite sleeps_app.
    cbn [sleeps flat_map app]. rewrite !app_nil_r, <- !app_assoc.
    reflexivity.
Qed.

(** * Concrete runs *)

Example sanitize_plain : sanitizeFilename "2024-03-15_ded.mp3" = "2024-03-15_ded.mp3".
Proof. reflexivity. Qed.

Example sanitize_traversal : sanitizeFilename "../../etc/pass wd" = "pass_wd.mp3".
Proof. reflexivity. Qed.

Example sanitize_upper_suffix : sanitizeFilename "a/b/Show.MP3" = "Show.MP3".
Proof. reflexivity. Qed.

Example sanitize_empty : sanitizeFilename "" = "..mp3".
Proof. reflexivity. Qed.

Example sanitize_only_separators : sanitizeFilename "///" = "_.mp3".
Proof. reflexivity. Qed.

Example validate_ded : validateShowID "ded" = None.
Proof. reflexivity. Qed.

Example validate_trailing_newline :
  validateShowID (String "a" (String (ascii_of_nat 10) EmptyString))
  = Some (Wrapf "%w: contains invalid characters" [] ErrInvalidShowID).
Proof. reflexivity. Qed.

Example validate_slash :
  validateShowID "../x"
  = Some (Wrapf "%w: contains invalid characters" [] ErrInvalidShowID).
Proof. reflexivity. Qed.

(** The scenario of one page with [show-id] 42 and one catalog entry:
    the resolver returns 42 and the transfer stores the body under
    [2024-03-15_ded.mp3]. *)
Example resolve_single_archive :
  fst (getShowArchiveID (scenario_env one_archive_doc [entry_ded]) "ded"
         (empty_world [Resp 200 "200 OK" (ok_body "<html>")]))
  = inr "42".
Proof. vm_compute. reflexivity. Qed.

Example download_first_attempt :
  let E := scenario_env one_archive_doc [entry_ded] in
  let run := downloadShow E entry_ded "archives" five_seconds
               (empty_world [Resp 200 "200 OK" (ok_body "ID3")]) in
  fst run = None
  /\ fs (snd run) !! "archives/2024-03-15_ded.mp3" = Some "ID3"
  /\ fs (snd run) !! "archives/2024-03-15_ded.mp3.tmp" = None
  /\ sleeps (trace (snd run)) = [five_seconds].
Proof. vm_compute. repeat split. Qed.

(** * Further properties of sanitizeFilename *)

Lemma append_nonempty_r s t : t <> "" -> s +:+ t <> "".
Proof. destruct s; [rewrite append_nil; tauto|discriminate]. Qed.

Lemma strip_app_keep s t :
  t <> "" -> strip_trailing_seps t = t ->
  strip_trailing_seps (s +:+ t) = s +:+ t.
Proof.
  intros Hne Ht. induction s as [|c s IH]; [exact Ht|].
  rewrite append_cons. cbn [strip_trailing_seps]. rewrite IH.
  destruct (s +:+ t) eqn:Hst; [|reflexivity].
  exfalso. revert Hst. apply append_nonempty_r, Hne.
Qed.

Lemma has_sep_app s t : has_sep (s +:+ t) = has_sep s || has_sep t.
Proof.
  induction s as [|c s IH]; [reflexivity|].
  rewrite append_cons. cbn [has_sep]. rewrite IH. apply orb_assoc.
Qed.

Lemma last_element_dir d name :
  has_sep name = false -> last_element (d +:+ "/" +:+ name) = name.
Proof.
  intros Hname. induction d as [|c d IH].
  - rewrite append_nil, append_cons, append_nil.
    cbn [last_element]. rewrite Hname. reflexivity.
  - rewrite append_cons. cbn [last_element].
    rewrite has_sep_app, append_cons, append_nil. cbn [has_sep is_sep].
    change (Ascii.eqb "/" "/") with true. cbn [orb].
    rewrite orb_true_r. rewrite append_cons, append_nil in IH. exact IH.
Qed.

Lemma Base_dir d name :
  name <> "" -> has_sep name = false ->
  filepath_Base (d +:+ "/" +:+ name) = name.
Proof.
  intros Hne Hname. unfold filepath_Base.
  assert (Hpath : d +:+ "/" +:+ name <> "").
  { apply append_nonempty_r. discriminate. }
  destruct (String.eqb (d +:+ "/" +:+ name) "") eqn:Hempty.
  { apply String.eqb_eq in Hempty. contradiction. }
  assert (Hstrip : strip_trailing_seps (d +:+ "/" +:+ name)
                   = d +:+ "/" +:+ name).
  { rewrite <- append_assoc. apply strip_app_keep; [exact Hne|].
    apply strip_no_sep, Hname. }
  rewrite Hstrip, last_element_dir by exact Hname.
  destruct name; [contradiction|reflexivity].
Qed.

(** Whatever directories precede the last element of a path, they do not
    reach the file name. *)
Theorem sanitizeFilename_drops_directories (d name : string) :
  name <> "" -> has_sep name = false ->
  sanitizeFilename (d +:+ "/" +:+ name) = sanitizeFilename name.
Proof.
  intros Hne Hname. unfold sanitizeFilename.
  rewrite (Base_dir d name Hne Hname), (Base_no_sep name Hne Hname).
  reflexivity.
Qed.

Lemma sanitizeFilename_drops_directories_witness :
  sanitizeFilename ("../../etc" +:+ "/" +:+ "passwd") = sanitizeFilename "passwd".
Proof.
  apply sanitizeFilename_drops_directories; [discriminate|reflexivity].
Defined.

(** The names [sanitizeFilename] leaves alone are exactly the names made
    of safe characters that end in [.mp3], case ignored. *)
Theorem sanitizeFilename_fixed_points (x : string) :
  sanitizeFilename x = x
  <-> all_chars safe_char x = true
      /\ strings_HasSuffix (strings_ToLower x) ".mp3" = true.
Proof.
  split.
  - intros Hfix. rewrite <- Hfix. apply sanitizeFilename_shape.
  - intros [Hsafe Hsuf].
    assert (Hne : x <> "").
    { apply ToLower_nonempty. eapply HasSuffix_nonempty; [|exact Hsuf].
      discriminate. }
    unfold sanitizeFilename, ReplaceAllString.
    rewrite (Base_no_sep x Hne (safe_no_sep x Hsafe)).
    rewrite (replace_safe_id x false Hsafe), Hsuf. reflexivity.
Qed.

Lemma strip_length s :
  (String.length (strip_trailing_seps s) <= String.length s)%nat.
Proof.
  induction s as [|c s IH]; [reflexivity|].
  cbn [strip_trailing_seps].
  destruct (strip_trailing_seps s) eqn:Hs.
  - destruct (is_sep c); cbn [String.length]; lia.
  - cbn [String.length] in *. lia.
Qed.

Lemma last_element_length s :
  (String.length (last_element s) <= String.length s)%nat.
Proof.
  induction s as [|c s IH]; [reflexivity|].
  cbn [last_element]. destruct (has_sep s); [cbn [String.length]; lia|].
  destruct (is_sep c); cbn [String.length]; lia.
Qed.

Lemma Base_length x :
  (String.length (filepath_Base x) <= Nat.max (String.length x) 1)%nat.
Proof.
  unfold filepath_Base. destruct (String.eqb x "") eqn:Hx.
  { cbn [String.length]. lia. }
  pose proof (last_element_length (strip_trailing_seps x)) as H1.
  pose proof (strip_length x) as H2.
  destruct (String.eqb (last_element (strip_trailing_seps x)) "").
  - cbn [String.length]. lia.
  - lia.
Qed.

Lemma replace_length cls s : forall skip keep,
  (String.length (replace_from cls "_" skip keep s) <= String.length s)%nat.
Proof.
  induction s as [|c s IH]; intros skip keep; [reflexivity|].
  cbn [replace_from]. destruct skip as [|k].
  - rewrite length_append.
    specialize (IH (rune_width c s - 1)%nat
                  (negb (class_match cls
                           (if is_ascii c then RAscii c else RWide)))).
    destruct (class_match cls _); cbn [String.length] in *; lia.
  - specialize (IH k keep). destruct keep; cbn [String.length]; lia.
Qed.

(** The result is at most four bytes longer than the input (five for the
    empty input, whose base name is the dot). *)
Theorem sanitizeFilename_length (x : string) :
  (String.length (sanitizeFilename x) <= Nat.max (String.length x) 1 + 4)%nat.
Proof.
  unfold sanitizeFilename, ReplaceAllString.
  pose proof (Base_length x) as Hb.
  pose proof (replace_length unsafeFilenameClass (filepath_Base x) 0 false) as Hr.
  destruct (negb _).
  - rewrite length_append. cbn [String.length]. lia.
  - lia.
Qed.

(** * Further properties of the resolver and the catalog fetcher *)

Lemma events_since_app w w' evs :
  trace w' = trace w ++ evs -> events_since w w' = evs.
Proof. intros H. unfold events_since. rewrite H. apply drop_app_length. Qed.

Lemma events_since_refl w : events_since w w = [].
Proof. apply events_since_app. rewrite app_nil_r. reflexivity. Qed.

Lemma key_bytes s :
  forallb spec_key_char (runes s) = true -> all_chars key_byte s = true.
Proof.
  unfold runes. induction s as [|c s IH]; [reflexivity|].
  cbn [runes_from forallb all_chars]. intros [Hc Hs]%andb_prop.
  pose proof (spec_key_char_ascii c Hc) as Hasc.
  rewrite (ascii_width_1 c s Hasc) in Hs. cbn [Nat.sub] in Hs.
  rewrite IH by exact Hs. rewrite Hasc in Hc. cbn [spec_key_char] in Hc.
  unfold key_byte. rewrite Hc. reflexivity.
Qed.

(** An accepted key is 1 to 50 bytes, each of them in [[A-Za-z0-9_-]]. *)
Lemma validateShowID_bytes id :
  validateShowID id = None ->
  all_chars key_byte id = true
  /\ (1 <= String.length id <= 50)%nat.
Proof.
  intros H. apply validateShowID_accepts in H. unfold spec_show_key in H.
  apply andb_prop in H as [[H1 H2]%andb_prop Hall].
  rewrite (key_runes_length id Hall) in H1, H2.
  apply Nat.leb_le in H1, H2. split; [apply key_bytes, Hall|lia].
Qed.

Lemma last_In {A} (l : list A) (d : A) :
  List.last l d <> d -> In (List.last l d) l.
Proof.
  induction l as [|x l IH]; [intros H; contradiction H; reflexivity|].
  destruct l as [|y l]; [left; reflexivity|].
  intros H. right. apply IH. exact H.
Qed.

(** The resolver on a page that was fetched and parsed: the outcome is
    decided by the last value the walk met. *)
Lemma getShowArchiveID_page E showID w status body rest doc :
  validateShowID showID = None ->
  NewRequest_err E (baseURL +:+ "/program/" +:+ showID +:+ "/") = None ->
  net w = Resp StatusOK status body :: rest ->
  html_Parse E body = inr doc ->
  fst (getShowArchiveID E showID w)
  = if String.eqb (List.last (matches doc) "") ""
    then inl (Errorf "could not find archive ID on page" [])
    else inr (List.last (matches doc) "").
Proof.
  intros Hv Hreq Hnet Hparse. unfold getShowArchiveID, client_Do.
  rewrite Hv, Hreq. cbn [emit net]. rewrite Hnet.
  cbn [Z.eqb StatusOK Pos.eqb negb]. rewrite Hparse, f_last_match.
  destruct (String.eqb _ ""); reflexivity.
Qed.

(** A page without a [wmse-archive] element that carries [show-id] makes
    the resolver fail with its not-found error. *)
Theorem getShowArchiveID_not_found
    (E : Env) (showID : string) (w : World) (status : string) (body : Body)
    (rest : list Response) (doc : Node) :
  validateShowID showID = None ->
  NewRequest_err E (baseURL +:+ "/program/" +:+ showID +:+ "/") = None ->
  net w = Resp StatusOK status body :: rest ->
  html_Parse E body = inr doc ->
  matches doc = [] ->
  fst (getShowArchiveID E showID w)
  = inl (Errorf "could not find archive ID on page" []).
Proof.
  intros Hv Hreq Hnet Hparse Hm.
  rewrite (getShowArchiveID_page E showID w status body rest doc) by assumption.
  rewrite Hm. reflexivity.
Qed.

Lemma getShowArchiveID_not_found_witness :
  fst (getShowArchiveID (scenario_env (page []) []) "ded"
         (empty_world [Resp StatusOK "200 OK" (ok_body "<html>")]))
  = inl (Errorf "could not find archive ID on page" []).
Proof.
  apply (getShowArchiveID_not_found _ _ _ "200 OK" (ok_body "<html>") []
           (page [])); reflexivity.
Defined.

(** A page with exactly one such element, of non-empty value, resolves
    to that value. *)
Theorem getShowArchiveID_unique_match
    (E : Env) (showID : string) (w : World) (status : string) (body : Body)
    (rest : list Response) (doc : Node) (v : string) :
  validateShowID showID = None ->
  NewRequest_err E (baseURL +:+ "/program/" +:+ showID +:+ "/") = None ->
  net w = Resp StatusOK status body :: rest ->
  html_Parse E body = inr doc ->
  matches doc = [v] ->
  v <> "" ->
  fst (getShowArchiveID E showID w) = inr v.
Proof.
  intros Hv Hreq Hnet Hparse Hm Hne.
  rewrite (getShowArchiveID_page E showID w status body rest doc) by assumption.
  rewrite Hm. cbn [List.last]. apply String.eqb_neq in Hne. rewrite Hne.
  reflexivity.
Qed.

Lemma getShowArchiveID_unique_match_witness :
  fst (getShowArchiveID (scenario_env one_archive_doc []) "ded"
         (empty_world [Resp StatusOK "200 OK" (ok_body "<html>")]))
  = inr "42".
Proof.
  apply (getShowArchiveID_unique_match _ _ _ "200 OK" (ok_body "<html>") []
           one_archive_doc); try reflexivity. discriminate.
Defined.

(** When the resolver succeeds, the key was valid, the page came with
    status 200 and parsed, and the identifier is not empty and is the
    [show-id] of an element of that page. *)
Theorem getShowArchiveID_success
    (E : Env) (showID : string) (w w' : World) (archiveID : string) :
  getShowArchiveID E showID w = (inr archiveID, w') ->
  validateShowID showID = None
  /\ archiveID <> ""
  /\ exists status body rest doc,
       net w = Resp StatusOK status body :: rest
       /\ html_Parse E body = inr doc
       /\ In archiveID (matches doc).
Proof.
  unfold getShowArchiveID, client_Do.
  destruct (validateShowID showID); [discriminate|].
  destruct (NewRequest_err E _); [discriminate|].
  cbn [emit net].
  destruct (net w) as [|[err|code status body] rest]; try discriminate.
  destruct (code =? StatusOK) eqn:Hcode; [|discriminate].
  apply Z.eqb_eq in Hcode. subst code. cbn [negb].
  destruct (html_Parse E body) as [err|doc] eqn:Hparse; [discriminate|].
  rewrite f_last_match.
  destruct (String.eqb (List.last (matches doc) "") "") eqn:Hlast;
    [discriminate|].
  apply String.eqb_neq in Hlast. intros [= <- _].
  split; [reflexivity|]. split; [exact Hlast|].
  exists status, body, rest, doc. repeat split; try assumption.
  apply last_In, Hlast.
Qed.

Lemma getShowArchiveID_success_witness :
  validateShowID "ded" = None
  /\ "42" <> ""
  /\ exists status body rest doc,
       net (empty_world [Resp StatusOK "200 OK" (ok_body "<html>")])
       = Resp StatusOK status body :: rest
       /\ html_Parse (scenario_env one_archive_doc []) body = inr doc
       /\ In "42" (matches doc).
Proof.
  eapply (getShowArchiveID_success (scenario_env one_archive_doc []) "ded").
  vm_compute. reflexivity.
Defined.

Ltac since_trace :=
  erewrite events_since_app
    by (cbn [trace logger emit]; rewrite <- ?app_assoc; reflexivity).

(** The resolver does not touch files or directories and does not sleep;
    it sends no request or one, and that one goes to the program page of
    a key of 1 to 50 bytes from [[A-Za-z0-9_-]]. *)
Theorem getShowArchiveID_effects (E : Env) (showID : string) (w : World) :
  let w' := snd (getShowArchiveID E showID w) in
  fs w' = fs w
  /\ dirs w' = dirs w
  /\ sleeps (events_since w w') = []
  /\ (requests (events_since w w') = []
      \/ requests (events_since w w')
         = [baseURL +:+ "/program/" +:+ showID +:+ "/"]
         /\ all_chars key_byte showID = true
         /\ (1 <= String.length showID <= 50)%nat).
Proof.
  unfold getShowArchiveID, client_Do.
  destruct (validateShowID showID) eqn:Hv.
  { cbn [snd]. rewrite events_since_refl. auto. }
  apply validateShowID_bytes in Hv.
  destruct (NewRequest_err E _).
  { cbn [snd]. rewrite events_since_refl. auto. }
  cbn [emit net].
  destruct (net w) as [|[err|code status body] rest];
    [| |destruct (negb (code =? StatusOK));
         [|destruct (html_Parse E body);
           [|destruct (String.eqb (f _ "") "")]]];
    cbn [snd fs dirs logger emit]; since_trace;
    (repeat split; [right; split; [reflexivity|exact Hv]]).
Qed.

(** The catalog fetcher does not touch files or directories and does not
    sleep; it sends no request or one, to the listing of the identifier. *)
Theorem fetchArchives_effects (E : Env) (archiveID : string) (w : World) :
  let w' := snd (fetchArchives E archiveID w) in
  fs w' = fs w
  /\ dirs w' = dirs w
  /\ sleeps (events_since w w') = []
  /\ (requests (events_since w w') = []
      \/ requests (events_since w w')
         = [apiURL +:+ "/api/shows/" +:+ archiveID]).
Proof.
  unfold fetchArchives, client_Do.
  destruct (NewRequest_err E _).
  { cbn [snd]. rewrite events_since_refl. auto. }
  cbn [emit net].
  destruct (net w) as [|[err|code status body] rest];
    [| |destruct (negb (code =? StatusOK));
         [|destruct (json_Decode E body)]];
    cbn [snd fs dirs logger emit]; since_trace;
    (repeat split; right; reflexivity).
Qed.

(** A list that [fetchArchives] returns is the list the decoder read
    from a response of status 200, as it is: nothing is added, dropped
    or reordered, and an empty list passes like any other. *)
Theorem fetchArchives_success
    (E : Env) (archiveID : string) (w w' : World) (archives : list Archive) :
  fetchArchives E archiveID w = (inr archives, w') ->
  exists status body rest,
    net w = Resp StatusOK status body :: rest
    /\ json_Decode E body = inr archives
    /\ net w' = rest.
Proof.
  unfold fetchArchives, client_Do.
  destruct (NewRequest_err E _); [discriminate|].
  cbn [emit net].
  destruct (net w) as [|[err|code status body] rest]; try discriminate.
  destruct (code =? StatusOK) eqn:Hcode; [|discriminate].
  apply Z.eqb_eq in Hcode. subst code. cbn [negb].
  destruct (json_Decode E body) as [err|l] eqn:Hdec; [discriminate|].
  intros [= <- <-]. exists status, body, rest. repeat split. exact Hdec.
Qed.

Lemma fetchArchives_success_witness :
  exists status body rest,
    net (empty_world [Resp StatusOK "200 OK" (ok_body "[]")])
    = Resp StatusOK status body :: rest
    /\ json_Decode (scenario_env one_archive_doc []) body = inr []
    /\ net (snd (fetchArchives (scenario_env one_archive_doc []) "42"
                   (empty_world [Resp StatusOK "200 OK" (ok_body "[]")])))
       = rest.
Proof.
  eapply (fetchArchives_success (scenario_env one_archive_doc []) "42").
  vm_compute. reflexivity.
Defined.

(** * Further properties of downloadShow *)

Lemma requests_app l1 l2 : requests (l1 ++ l2) = requests l1 ++ requests l2.
Proof. unfold requests. apply flat_map_app. Qed.

Lemma backoffs_cons k l :
  backoffs (k :: l) = (if 1 <? k then [Second * (k * 2)] else []) ++ backoffs l.
Proof. reflexivity. Qed.

Lemma backoff_trace k lastErr w :
  exists evs,
    trace (backoff k lastErr w) = trace w ++ evs
    /\ sleeps evs = backoffs [k]
    /\ requests evs = [].
Proof.
  unfold backoff, backoffs. cbn [flat_map]. destruct (1 <? k).
  - eexists. split; [cbn [trace time_Sleep logger emit];
                     rewrite <- app_assoc; reflexivity|].
    split; reflexivity.
  - exists []. rewrite app_nil_r. repeat split.
Qed.

Lemma attempt_once_trace E a tmp w r w' :
  attempt_once E a tmp w = (r, w') ->
  exists evs,
    trace w' = trace w ++ evs
    /\ sleeps evs = []
    /\ (requests evs = [] \/ requests evs = [ArchiveURL a]).
Proof.
  unfold attempt_once, client_Do, io_Copy.
  destruct (NewRequest_err E (ArchiveURL a)).
  { intros [= _ <-]. exists []. rewrite app_nil_r. auto. }
  cbn [emit net].
  destruct (net w) as [|[err|code status body] rest];
    [| |destruct (negb (code =? StatusOK));
         [|destruct (copy_error body (maxFileSize + 1));
           [|destruct (maxFileSize <? _)]]];
    intros [= _ <-]; exists [EvRequest (ArchiveURL a)];
    (split; [reflexivity|split; [reflexivity|right; reflexivity]]).
Qed.

(** The loop makes at most one request per attempt, all of them to the
    URL of the entry, and sleeps before every attempt but the first. *)
Lemma retry_loop_trace E a tmp attempts : forall lastErr w r w',
  retry_loop E a tmp attempts lastErr w = (r, w') ->
  exists evs k j,
    trace w' = trace w ++ evs
    /\ (j <= k <= List.length attempts)%nat
    /\ sleeps evs = backoffs (take k attempts)
    /\ requests evs = repeat (ArchiveURL a) j.
Proof.
  induction attempts as [|attempt rest IH]; intros lastErr w r w' H;
    cbn [retry_loop] in H.
  { injection H as _ <-. exists [], 0%nat, 0%nat. rewrite app_nil_r.
    repeat split; reflexivity. }
  destruct (backoff_trace attempt lastErr w) as (evb & Htb & Hsb & Hrb).
  destruct (attempt_once E a tmp (backoff attempt lastErr w))
    as [res w1] eqn:Honce.
  destruct (attempt_once_trace _ _ _ _ _ _ Honce) as (eva & Hta & Hsa & Hra).
  assert (Hone : exists j1, (j1 <= 1)%nat
                            /\ requests eva = repeat (ArchiveURL a) j1).
  { destruct Hra as [-> | ->]; [exists 0%nat|exists 1%nat]; split;
      (lia || reflexivity). }
  destruct Hone as (j1 & Hj1 & Hreq1).
  destruct res as [e|].
  - destruct (IH _ _ _ _ H) as (evs & k & j & Ht & Hjk & Hs & Hr).
    exists (evb ++ eva ++ evs), (S k), (j1 + j)%nat.
    split; [rewrite Ht, Hta, Htb, <- !app_assoc; reflexivity|].
    split; [cbn [List.length]; lia|]. split.
    + rewrite !sleeps_app, Hsb, Hsa, Hs. cbn [take].
      rewrite (backoffs_cons attempt (take k rest)).
      unfold backoffs at 1. cbn [flat_map]. rewrite app_nil_r. reflexivity.
    + rewrite !requests_app, Hrb, Hreq1, Hr, repeat_app. reflexivity.
  - injection H as _ <-.
    exists (evb ++ eva), 1%nat, j1.
    split; [rewrite Hta, Htb, <- !app_assoc; reflexivity|].
    split; [cbn [List.length]; lia|]. split.
    + rewrite sleeps_app, Hsb, Hsa, app_nil_r. reflexivity.
    + rewrite requests_app, Hrb, Hreq1. reflexivity.
Qed.

Lemma backoffs_attempt_range k :
  backoffs (take k attempt_range) = take (k - 1) [4 * Second; 6 * Second].
Proof. destruct k as [|[|[|[|k]]]]; reflexivity. Qed.

(** Every way [downloadShow] can run, seen from outside: which paths may
    change, which directory may appear, which requests and sleeps are
    made. *)
Lemma downloadShow_run E a outDir delay w r w' :
  downloadShow E a outDir delay w = (r, w') ->
  (forall p, p <> destination E a outDir ->
             p <> destination E a outDir +:+ ".tmp" ->
             fs w' !! p = fs w !! p)
  /\ (forall c, fs w !! destination E a outDir = Some c ->
                fs w' !! destination E a outDir = Some c)
  /\ (dirs w' = dirs w \/ dirs w' = {[outDir]} ∪ dirs w)
  /\ exists evs k j,
       trace w' = trace w ++ evs
       /\ (j <= k <= 3)%nat
       /\ requests evs = repeat (ArchiveURL a) j
       /\ sleeps evs
          = backoffs (take k attempt_range)
            ++ match r with
               | None =>
                   if os_Stat_ok (destination E a outDir) w then []
                   else [delay]
               | Some _ => []
               end.
Proof.
  intros Hrun.
  destruct (String.eqb (ArchiveURL a) "") eqn:Hurl.
  { apply String.eqb_eq in Hurl.
    rewrite downloadShow_no_url in Hrun by exact Hurl.
    injection Hrun as <- <-.
    split; [intros; reflexivity|]. split; [intros c Hc; exact Hc|].
    split; [left; reflexivity|].
    exists [], 0%nat, 0%nat. rewrite app_nil_r.
    split; [reflexivity|]. split; [lia|]. split; reflexivity. }
  destruct (os_Stat_ok (destination E a outDir) w) eqn:Hstat.
  { apply String.eqb_neq in Hurl.
    rewrite downloadShow_skip in Hrun by assumption.
    injection Hrun as <- <-.
    split; [intros; reflexivity|]. split; [intros c Hc; exact Hc|].
    split; [left; reflexivity|].
    eexists _, 0%nat, 0%nat.
    split; [reflexivity|]. split; [lia|]. split; reflexivity. }
  pose proof (Stat_false_lookup _ w Hstat) as Hout.
  revert Hrun. unfold downloadShow. rewrite Hurl.
  fold (destination E a outDir). rewrite Hstat.
  set (out := destination E a outDir) in *.
  set (tmp := out +:+ ".tmp").
  pose (ev0 := EvLog Info "Downloading show"
                 [("date", PlaylistDate a); ("url", ArchiveURL a)] None).
  unfold os_MkdirAll.
  destruct (os_fault E OpMkdirAll outDir) as [e|].
  { intros [= <- <-].
    split; [intros; reflexivity|]. split; [intros c Hc; exact Hc|].
    split; [left; reflexivity|].
    exists [ev0], 0%nat, 0%nat.
    split; [reflexivity|]. split; [lia|]. split; reflexivity. }
  unfold os_Create.
  destruct (os_fault E OpCreate tmp) as [e|].
  { intros [= <- <-].
    split; [intros; reflexivity|]. split; [intros c Hc; exact Hc|].
    split; [right; reflexivity|].
    exists [ev0], 0%nat, 0%nat.
    split; [reflexivity|]. split; [lia|]. split; reflexivity. }
  set (w2 := mkWorld (<[tmp:=""]> _) _ _ _).
  unfold download_body.
  destruct (retry_loop E a tmp attempt_range None w2) as [lastErr w3] eqn:Hloop.
  pose proof (retry_loop_trace _ _ _ _ _ _ _ _ Hloop)
    as (evs & k & j & Ht & Hjk & Hs & Hr).
  apply retry_loop_frame in Hloop as (Hd & _ & Hf & Hsome).
  assert (Htmp : is_Some (fs w3 !! tmp)).
  { apply Hsome. subst w2. cbn [fs]. rewrite lookup_insert_eq. eauto. }
  assert (Hframe3 : forall p, p <> out -> p <> tmp -> fs w3 !! p = fs w !! p).
  { intros p _ Hp. rewrite Hf by exact Hp. subst w2. cbn [fs logger emit].
    apply lookup_insert_ne. congruence. }
  assert (Hfail :
    (forall p, p <> out -> p <> tmp -> fs w3 !! p = fs w !! p)
    /\ (forall c, fs w !! out = Some c -> fs w3 !! out = Some c)
    /\ (dirs w3 = dirs w \/ dirs w3 = {[outDir]} ∪ dirs w)
    /\ exists evs0 k0 j0,
         trace w3 = trace w ++ evs0
         /\ (j0 <= k0 <= 3)%nat
         /\ requests evs0 = repeat (ArchiveURL a) j0
         /\ sleeps evs0 = backoffs (take k0 attempt_range) ++ []).
  { split; [exact Hframe3|]. split; [intros c Hc; congruence|].
    split; [right; rewrite Hd; reflexivity|].
    exists (ev0 :: evs), k, j. split.
    - rewrite Ht. subst w2. cbn [trace logger emit].
      rewrite <- app_assoc. reflexivity.
    - split; [exact Hjk|]. split.
      + change (ev0 :: evs) with ([ev0] ++ evs). rewrite requests_app.
        exact Hr.
      + change (ev0 :: evs) with ([ev0] ++ evs).
        rewrite sleeps_app, app_nil_r. exact Hs. }
  destruct lastErr as [e|].
  { intros [= <- <-]. exact Hfail. }
  destruct (file_Sync E tmp) as [e|].
  { intros [= <- <-]. exact Hfail. }
  destruct (file_Close E tmp) as [e|].
  { intros [= <- <-]. exact Hfail. }
  unfold os_Rename.
  destruct (os_fault E OpRename tmp) as [e|].
  { intros [= <- <-]. exact Hfail. }
  destruct Htmp as [content Hcontent]. rewrite Hcontent.
  intros [= <- <-].
  cbn [deferred_cleanup fs dirs trace time_Sleep logger emit].
  split; [|split; [|split]].
  - intros p Hp1 Hp2.
    rewrite lookup_insert_ne, lookup_delete_ne by congruence.
    apply Hframe3; assumption.
  - intros c Hc. congruence.
  - right. rewrite Hd. reflexivity.
  - eexists _, k, j. split.
    + rewrite Ht. subst w2. cbn [trace logger emit].
      rewrite <- !app_assoc. reflexivity.
    + split; [exact Hjk|]. split.
      * change (ev0 :: ?l) with ([ev0] ++ l).
        rewrite !requests_app, Hr. cbn [requests flat_map app].
        rewrite app_nil_r. reflexivity.
      * change (ev0 :: ?l) with ([ev0] ++ l).
        rewrite !sleeps_app, Hs. reflexivity.
Qed.

(** A file that is already at the destination is never replaced or
    changed, whatever the entry and the responses are. *)
Theorem downloadShow_keeps_existing_file
    (E : Env) (a : Archive) (outDir : string) (delay : Z) (w : World)
    (content : string) :
  fs w !! destination E a outDir = Some content ->
  fs (snd (downloadShow E a outDir delay w)) !! destination E a outDir
  = Some content.
Proof.
  intros Hc.
  destruct (downloadShow E a outDir delay w) as [r w'] eqn:Hrun.
  apply downloadShow_run in Hrun as (_ & Hkeep & _). apply Hkeep, Hc.
Qed.

Lemma downloadShow_keeps_existing_file_witness :
  fs (snd (downloadShow (scenario_env one_archive_doc [entry_ded]) entry_ded
             "archives" five_seconds
             (downloaded_world [Resp StatusOK "200 OK" (ok_body "NEW")])))
    !! destination (scenario_env one_archive_doc [entry_ded]) entry_ded
         "archives"
  = Some "ID3".
Proof.
  apply downloadShow_keeps_existing_file. vm_compute. reflexivity.
Defined.

(** The transfer writes to two paths only, the destination and the
    destination with [.tmp] appended; every other file stays as it was,
    on every path through the function. *)
Theorem downloadShow_other_paths
    (E : Env) (a : Archive) (outDir : string) (delay : Z) (w : World)
    (p : string) :
  p <> destination E a outDir ->
  p <> destination E a outDir +:+ ".tmp" ->
  fs (snd (downloadShow E a outDir delay w)) !! p = fs w !! p.
Proof.
  intros Hp1 Hp2.
  destruct (downloadShow E a outDir delay w) as [r w'] eqn:Hrun.
  apply downloadShow_run in Hrun as (Hframe & _). apply Hframe; assumption.
Qed.

Lemma downloadShow_other_paths_witness :
  fs (snd (downloadShow (scenario_env one_archive_doc [entry_ded]) entry_ded
             "archives" five_seconds
             (mkWorld {[ "archives/notes.txt" := "keep" ]} ∅
                [Resp StatusOK "200 OK" (ok_body "ID3")] [])))
    !! "archives/notes.txt"
  = fs (mkWorld {[ "archives/notes.txt" := "keep" ]} ∅
          [Resp StatusOK "200 OK" (ok_body "ID3")] [])
      !! "archives/notes.txt".
Proof.
  apply downloadShow_other_paths; vm_compute; discriminate.
Defined.

(** One call sends at most three requests, all to the URL of the entry;
    before the second and the third attempt it sleeps 4 s and 6 s, and
    the only other sleep is the delay after a completed download. *)
Theorem downloadShow_requests_and_sleeps
    (E : Env) (a : Archive) (outDir : string) (delay : Z) (w : World) :
  let run := downloadShow E a outDir delay w in
  exists j n,
    (j <= n + 1 <= 3)%nat
    /\ requests (events_since w (snd run)) = repeat (ArchiveURL a) j
    /\ sleeps (events_since w (snd run))
       = take n [4 * Second; 6 * Second]
         ++ match fst run with
            | None =>
                if os_Stat_ok (destination E a outDir) w then []
                else [delay]
            | Some _ => []
            end.
Proof.
  intros run. subst run.
  destruct (downloadShow E a outDir delay w) as [r w'] eqn:Hrun.
  apply downloadShow_run in Hrun
    as (_ & _ & _ & evs & k & j & Ht & Hjk & Hr & Hs).
  cbn [fst snd]. rewrite (events_since_app w w' evs Ht).
  exists j, (k - 1)%nat. split; [lia|]. split; [exact Hr|].
  rewrite Hs, backoffs_attempt_range. reflexivity.
Qed.

Lemma download_success_exists E a outDir delay w w1 :
  downloadShow E a outDir delay w = (None, w1) ->
  ArchiveURL a <> "" /\ os_Stat_ok (destination E a outDir) w1 = true.
Proof.
  intros Hrun.
  destruct (String.eqb (ArchiveURL a) "") eqn:Hurl.
  { apply String.eqb_eq in Hurl.
    rewrite downloadShow_no_url in Hrun by exact Hurl. discriminate. }
  apply String.eqb_neq in Hurl. split; [exact Hurl|].
  destruct (os_Stat_ok (destination E a outDir) w) eqn:Hstat.
  { rewrite downloadShow_skip in Hrun by assumption.
    injection Hrun as <-. exact Hstat. }
  destruct (downloadShow_started E a outDir delay w _ _ Hurl Hstat Hrun)
    as (evs & _ & evs0 & name & _ & _ & Hsome & _).
  unfold os_Stat_ok. rewrite bool_decide_eq_true_2 by exact Hsome.
  reflexivity.
Qed.

(** After a transfer that returned success, a second transfer of the
    same entry is a skip: success again, one log line, and nothing else
    happens, whatever delay is passed. *)
Theorem downloadShow_rerun_skips
    (E : Env) (a : Archive) (outDir : string) (delay delay' : Z)
    (w w1 : World) :
  downloadShow E a outDir delay w = (None, w1) ->
  exists name,
    downloadShow E a outDir delay' w1
    = (None, logger Info "Skipping existing file" [("filename", name)] None w1).
Proof.
  intros Hrun. apply download_success_exists in Hrun as [Hurl Hstat].
  eexists. apply downloadShow_skip; assumption.
Qed.

Lemma downloadShow_rerun_skips_witness :
  exists name,
    downloadShow (scenario_env one_archive_doc [entry_ded]) entry_ded
      "archives" 0
      (snd (downloadShow (scenario_env one_archive_doc [entry_ded]) entry_ded
              "archives" five_seconds
              (empty_world [Resp StatusOK "200 OK" (ok_body "ID3")])))
    = (None,
       logger Info "Skipping existing file" [("filename", name)] None
         (snd (downloadShow (scenario_env one_archive_doc [entry_ded])
                 entry_ded "archives" five_seconds
                 (empty_world [Resp StatusOK "200 OK" (ok_body "ID3")])))).
Proof.
  eapply (downloadShow_rerun_skips _ _ _ five_seconds 0
            (empty_world [Resp StatusOK "200 OK" (ok_body "ID3")])).
  vm_compute. reflexivity.
Defined.

(** When the output directory or the staging file cannot be created the
    transfer fails at once: no file appears, no request is sent and the
    pending responses stay untouched. *)
Theorem downloadShow_staging_failure
    (E : Env) (a : Archive) (outDir : string) (delay : Z) (w : World) :
  ArchiveURL a <> "" ->
  os_Stat_ok (destination E a outDir) w = false ->
  is_Some (os_fault E OpMkdirAll outDir)
  \/ is_Some (os_fault E OpCreate (destination E a outDir +:+ ".tmp")) ->
  is_Some (fst (downloadShow E a outDir delay w))
  /\ fs (snd (downloadShow E a outDir delay w)) = fs w
  /\ net (snd (downloadShow E a outDir delay w)) = net w
  /\ requests (events_since w (snd (downloadShow E a outDir delay w))) = [].
Proof.
  intros Hurl Hstat Hfault. unfold downloadShow.
  apply String.eqb_neq in Hurl. rewrite Hurl.
  fold (destination E a outDir). rewrite Hstat.
  unfold os_MkdirAll, os_Create.
  destruct (os_fault E OpMkdirAll outDir) as [e|].
  { cbn [fst snd fs net logger emit]. since_trace. repeat split. eauto. }
  destruct (os_fault E OpCreate (destination E a outDir +:+ ".tmp")) as [e|].
  { cbn [fst snd fs net logger emit]. since_trace. repeat split. eauto. }
  destruct Hfault as [[? [=]]|[? [=]]].
Qed.

Lemma downloadShow_staging_failure_witness :
  is_Some (fst (downloadShow readonly_env entry_ded "archives" five_seconds
                  (empty_world [server_error])))
  /\ fs (snd (downloadShow readonly_env entry_ded "archives" five_seconds
                (empty_world [server_error])))
     = fs (empty_world [server_error])
  /\ net (snd (downloadShow readonly_env entry_ded "archives" five_seconds
                 (empty_world [server_error])))
     = net (empty_world [server_error])
  /\ requests (events_since (empty_world [server_error])
                 (snd (downloadShow readonly_env entry_ded "archives"
                         five_seconds (empty_world [server_error]))))
     = [].
Proof.
  apply downloadShow_staging_failure;
    [discriminate|vm_compute; reflexivity|left; vm_compute; eauto].
Defined.

(** ** Attempts against given responses *)

Lemma attempt_once_error E a tmp w r rest :
  NewRequest_err E (ArchiveURL a) = None ->
  net w = r :: rest ->
  fst (attempt_once E a tmp w) = attempt_error a tmp r.
Proof.
  intros Hreq Hnet. unfold attempt_once, client_Do, io_Copy, attempt_error.
  rewrite Hreq. cbn [emit net]. rewrite Hnet.
  destruct r as [err|code status body]; [reflexivity|].
  destruct (negb (code =? StatusOK)); [reflexivity|].
  destruct (copy_error body (maxFileSize + 1)); [reflexivity|].
  destruct (maxFileSize <? _); reflexivity.
Qed.

Lemma attempt_once_exact E a tmp w r rest old :
  NewRequest_err E (ArchiveURL a) = None ->
  net w = r :: rest ->
  fs w !! tmp = Some old ->
  exists w',
    attempt_once E a tmp w = (attempt_error a tmp r, w')
    /\ net w' = rest
    /\ trace w' = trace w ++ [EvRequest (ArchiveURL a)]
    /\ fs w' !! tmp = Some (old +:+ staged_bytes r)
    /\ (forall p, p <> tmp -> fs w' !! p = fs w !! p).
Proof.
  intros Hreq Hnet Hold.
  destruct (attempt_once_response E a tmp w r rest old Hreq Hnet Hold)
    as (res & w' & Heq & _ & Hn & Ht & Hfs).
  pose proof (attempt_once_error E a tmp w r rest Hreq Hnet) as Herr.
  rewrite Heq in Herr. cbn [fst] in Herr. subst res.
  exists w'. repeat split; try assumption.
  apply attempt_once_frame in Heq as (_ & _ & Hf & _). exact Hf.
Qed.

(** The loop against a first response that succeeds. *)
Lemma retry_loop_first E a tmp w r1 rest old :
  NewRequest_err E (ArchiveURL a) = None ->
  net w = r1 :: rest ->
  fs w !! tmp = Some old ->
  attempt_error a tmp r1 = None ->
  exists w',
    retry_loop E a tmp attempt_range None w = (None, w')
    /\ net w' = rest
    /\ trace w' = trace w ++ [EvRequest (ArchiveURL a)]
    /\ fs w' !! tmp = Some (old +:+ staged_bytes r1)
    /\ (forall p, p <> tmp -> fs w' !! p = fs w !! p).
Proof.
  intros Hreq Hnet Hold Hok.
  change attempt_range with [1; 2; 3]. cbn [retry_loop].
  change (backoff 1 None w) with w.
  destruct (attempt_once_exact E a tmp w r1 rest old Hreq Hnet Hold)
    as (w' & -> & Hrest). rewrite Hok. exists w'. split; [reflexivity|].
  exact Hrest.
Qed.

(** The loop against two failing responses and a third one. *)
Lemma retry_loop_three E a tmp w r1 r2 r3 rest old e1 e2 :
  NewRequest_err E (ArchiveURL a) = None ->
  net w = r1 :: r2 :: r3 :: rest ->
  fs w !! tmp = Some old ->
  attempt_error a tmp r1 = Some e1 ->
  attempt_error a tmp r2 = Some e2 ->
  exists w',
    retry_loop E a tmp attempt_range None w = (attempt_error a tmp r3, w')
    /\ net w' = rest
    /\ trace w'
       = trace w
         ++ [EvRequest (ArchiveURL a);
             EvLog Info "Retrying download" [] (Some e1);
             EvSleep (4 * Second);
             EvRequest (ArchiveURL a);
             EvLog Info "Retrying download" [] (Some e2);
             EvSleep (6 * Second);
             EvRequest (ArchiveURL a)]
    /\ fs w' !! tmp
       = Some (old +:+ staged_bytes r1 +:+ staged_bytes r2 +:+ staged_bytes r3)
    /\ (forall p, p <> tmp -> fs w' !! p = fs w !! p).
Proof.
  intros Hreq Hnet Hold He1 He2.
  change attempt_range with [1; 2; 3]. cbn [retry_loop].
  change (backoff 1 None w) with w.
  destruct (attempt_once_exact E a tmp w r1 _ old Hreq Hnet Hold)
    as (w1 & -> & Hn1 & Ht1 & Hfs1 & Hf1). rewrite He1.
  set (w1' := backoff 2 (Some e1) w1).
  assert (Hb1 : net w1' = net w1 /\ fs w1' = fs w1
                /\ trace w1' = trace w1
                     ++ [EvLog Info "Retrying download" [] (Some e1);
                         EvSleep (4 * Second)]).
  { subst w1'. cbn. rewrite <- app_assoc. repeat split. }
  destruct Hb1 as (Hbn1 & Hbf1 & Hbt1).
  rewrite <- Hbn1 in Hn1. rewrite <- Hbf1 in Hfs1.
  destruct (attempt_once_exact E a tmp w1' r2 _ _ Hreq Hn1 Hfs1)
    as (w2 & -> & Hn2 & Ht2 & Hfs2 & Hf2). rewrite He2.
  set (w2' := backoff 3 (Some e2) w2).
  assert (Hb2 : net w2' = net w2 /\ fs w2' = fs w2
                /\ trace w2' = trace w2
                     ++ [EvLog Info "Retrying download" [] (Some e2);
                         EvSleep (6 * Second)]).
  { subst w2'. cbn. rewrite <- app_assoc. repeat split. }
  destruct Hb2 as (Hbn2 & Hbf2 & Hbt2).
  rewrite <- Hbn2 in Hn2. rewrite <- Hbf2 in Hfs2.
  destruct (attempt_once_exact E a tmp w2' r3 _ _ Hreq Hn2 Hfs2)
    as (w3 & -> & Hn3 & Ht3 & Hfs3 & Hf3).
  destruct (attempt_error a tmp r3) as [e3|];
    (exists w3; split; [reflexivity|]; split; [exact Hn3|]; split;
     [rewrite Ht3, Hbt2, Ht2, Hbt1, Ht1, <- !app_assoc; reflexivity|];
     split; [rewrite Hfs3, !append_assoc; reflexivity|];
     intros p Hp; rewrite Hf3, Hbf2, Hf2, Hbf1, Hf1 by exact Hp;
     reflexivity).
Qed.

Lemma failing_attempt_error a tmp r :
  failing_response r
  = match attempt_error a tmp r with Some _ => true | None => false end.
Proof.
  unfold failing_response, attempt_error.
  destruct r as [err|code status body]; [reflexivity|].
  destruct (negb (code =? StatusOK)); [reflexivity|]. cbn [orb].
  destruct (copy_error body (maxFileSize + 1)); [reflexivity|].
  destruct (maxFileSize <? _); reflexivity.
Qed.

Lemma downloadShow_staged E a outDir delay w :
  ArchiveURL a <> "" ->
  os_Stat_ok (destination E a outDir) w = false ->
  os_fault E OpMkdirAll outDir = None ->
  os_fault E OpCreate (destination E a outDir +:+ ".tmp") = None ->
  downloadShow E a outDir delay w
  = download_body E a
      (sanitizeFilename (PlaylistDate a +:+ "_" +:+ ShowID a +:+ ".mp3"))
      (destination E a outDir) (destination E a outDir +:+ ".tmp") delay
      (mkWorld (<[destination E a outDir +:+ ".tmp" := ""]> (fs w))
         ({[outDir]} ∪ dirs w) (net w)
         (trace w ++ [EvLog Info "Downloading show"
                        [("date", PlaylistDate a); ("url", ArchiveURL a)]
                        None])).
Proof.
  intros Hurl Hstat Hmk Hcr. unfold downloadShow.
  apply String.eqb_neq in Hurl. rewrite Hurl.
  fold (destination E a outDir). rewrite Hstat.
  unfold os_MkdirAll, os_Create. rewrite Hmk, Hcr.
  cbn [fs dirs net trace logger emit deferred_cleanup].
  destruct (download_body _ _ _ _ _ _ _); reflexivity.
Qed.

(** A download that succeeds at the first attempt: one request, no
    backoff, the body is stored at the destination byte for byte, the
    staging file is gone, and the delay is slept once. *)
Theorem downloadShow_first_attempt
    (E : Env) (a : Archive) (outDir : string) (delay : Z) (w : World)
    (status data : string) (late : bool) (rest : list Response) :
  ArchiveURL a <> "" ->
  os_Stat_ok (destination E a outDir) w = false ->
  (forall op path, os_fault E op path = None) ->
  NewRequest_err E (ArchiveURL a) = None ->
  net w = Resp StatusOK status (mkBody data None late) :: rest ->
  len data <= maxFileSize ->
  let run := downloadShow E a outDir delay w in
  fst run = None
  /\ fs (snd run) !! destination E a outDir = Some data
  /\ fs (snd run) !! (destination E a outDir +:+ ".tmp") = None
  /\ requests (events_since w (snd run)) = [ArchiveURL a]
  /\ sleeps (events_since w (snd run)) = [delay]
  /\ net (snd run) = rest.
Proof.
  intros Hurl Hstat Hfault Hreq Hnet Hlen run. subst run.
  rewrite downloadShow_staged by auto.
  set (out := destination E a outDir).
  set (tmp := out +:+ ".tmp").
  set (w2 := mkWorld _ _ _ _).
  assert (Hok : attempt_error a tmp
                  (Resp StatusOK status (mkBody data None late))
                = None).
  { unfold attempt_error, copy_error.
    cbn [Z.eqb StatusOK Pos.eqb negb body_data body_err].
    rewrite take_bytes_all by lia.
    destruct (len data <? maxFileSize + 1);
      [|destruct (_ && _)];
      (destruct (maxFileSize <? len data) eqn:Hlt; [|reflexivity];
       apply Z.ltb_lt in Hlt; lia). }
  destruct (retry_loop_first E a tmp w2 _ rest "" Hreq Hnet
              (lookup_insert_eq _ _ _) Hok)
    as (w3 & Hloop & Hn3 & Ht3 & Hfs3 & Hf3).
  unfold download_body. rewrite Hloop.
  unfold file_Sync, file_Close, os_Rename. rewrite !Hfault, Hfs3.
  cbn [fst snd fs net trace time_Sleep logger emit].
  cbn [staged_bytes Z.eqb StatusOK Pos.eqb body_data].
  rewrite take_bytes_all, append_nil by lia.
  split; [reflexivity|]. split; [apply lookup_insert_eq|].
  split.
  { rewrite lookup_insert_ne by (intros H; revert H; apply tmp_differs).
    apply lookup_delete_eq. }
  erewrite events_since_app
    by (cbn [trace time_Sleep logger emit]; rewrite ?Ht3; try subst w2;
        cbn [trace]; rewrite <- ?app_assoc; reflexivity).
  repeat split. exact Hn3.
Qed.

Lemma downloadShow_first_attempt_witness :
  let run := downloadShow (scenario_env one_archive_doc [entry_ded]) entry_ded
               "archives" five_seconds
               (empty_world [Resp StatusOK "200 OK" (mkBody "ID3" None false)]) in
  fst run = None
  /\ fs (snd run) !! destination (scenario_env one_archive_doc [entry_ded])
                       entry_ded "archives" = Some "ID3"
  /\ fs (snd run) !! (destination (scenario_env one_archive_doc [entry_ded])
                        entry_ded "archives" +:+ ".tmp") = None
  /\ requests (events_since
                 (empty_world [Resp StatusOK "200 OK" (mkBody "ID3" None false)])
                 (snd run)) = [ArchiveURL entry_ded]
  /\ sleeps (events_since
               (empty_world [Resp StatusOK "200 OK" (mkBody "ID3" None false)])
               (snd run)) = [five_seconds]
  /\ net (snd run) = [].
Proof.
  apply (downloadShow_first_attempt (scenario_env one_archive_doc [entry_ded])
           entry_ded "archives" five_seconds _ "200 OK" "ID3" false []);
    try reflexivity; try discriminate.
Defined.

(** When all three attempts fail, the transfer returns the error of the
    third one after exactly three requests and the two backoff sleeps;
    it does not sleep the delay, the destination stays absent, and the
    errors of the first two attempts appear only in the retry log. *)
Theorem downloadShow_retries_exhausted
    (E : Env) (a : Archive) (outDir : string) (delay : Z) (w : World)
    (r1 r2 r3 : Response) (rest : list Response) :
  ArchiveURL a <> "" ->
  os_Stat_ok (destination E a outDir) w = false ->
  os_fault E OpMkdirAll outDir = None ->
  os_fault E OpCreate (destination E a outDir +:+ ".tmp") = None ->
  NewRequest_err E (ArchiveURL a) = None ->
  net w = r1 :: r2 :: r3 :: rest ->
  failing_response r1 = true ->
  failing_response r2 = true ->
  failing_response r3 = true ->
  let run := downloadShow E a outDir delay w in
  is_Some (fst run)
  /\ fst run = attempt_error a (destination E a outDir +:+ ".tmp") r3
  /\ requests (events_since w (snd run))
     = [ArchiveURL a; ArchiveURL a; ArchiveURL a]
  /\ sleeps (events_since w (snd run)) = [4 * Second; 6 * Second]
  /\ fs (snd run) !! destination E a outDir = None
  /\ net (snd run) = rest.
Proof.
  intros Hurl Hstat Hmk Hcr Hreq Hnet Hf1 Hf2 Hf3 run. subst run.
  rewrite downloadShow_staged by auto.
  set (out := destination E a outDir) in *.
  set (tmp := out +:+ ".tmp") in *.
  set (w2 := mkWorld _ _ _ _).
  rewrite (failing_attempt_error a tmp) in Hf1, Hf2, Hf3.
  destruct (attempt_error a tmp r1) as [e1|] eqn:He1; [|discriminate].
  destruct (attempt_error a tmp r2) as [e2|] eqn:He2; [|discriminate].
  destruct (retry_loop_three E a tmp w2 r1 r2 r3 rest "" e1 e2 Hreq Hnet
              (lookup_insert_eq _ _ _) He1 He2)
    as (w3 & Hloop & Hn3 & Ht3 & Hfs3 & Hf).
  unfold download_body. rewrite Hloop.
  destruct (attempt_error a tmp r3) as [e3|]; [|discriminate].
  cbn [fst snd]. split; [eauto|]. split; [reflexivity|].
  erewrite events_since_app
    by (rewrite Ht3; try subst w2; cbn [trace];
        rewrite <- ?app_assoc; reflexivity).
  split; [reflexivity|]. split; [reflexivity|]. split; [|exact Hn3].
  rewrite Hf by apply tmp_differs. try subst w2. cbn [fs].
  rewrite lookup_insert_ne
    by (intros H; symmetry in H; revert H; apply tmp_differs).
  apply Stat_false_lookup, Hstat.
Qed.

Lemma downloadShow_retries_exhausted_witness :
  let E := scenario_env one_archive_doc [entry_ded] in
  let w := empty_world [server_error; ConnErr (ErrExternal "timeout");
                        Resp StatusOK "200 OK" (broken_body "AB")] in
  let run := downloadShow E entry_ded "archives" five_seconds w in
  is_Some (fst run)
  /\ fst run
     = attempt_error entry_ded (destination E entry_ded "archives" +:+ ".tmp")
         (Resp StatusOK "200 OK" (broken_body "AB"))
  /\ requests (events_since w (snd run))
     = [ArchiveURL entry_ded; ArchiveURL entry_ded; ArchiveURL entry_ded]
  /\ sleeps (events_since w (snd run)) = [4 * Second; 6 * Second]
  /\ fs (snd run) !! destination E entry_ded "archives" = None
  /\ net (snd run) = [].
Proof.
  apply (downloadShow_retries_exhausted (scenario_env one_archive_doc [entry_ded])
           entry_ded "archives" five_seconds _
           server_error (ConnErr (ErrExternal "timeout"))
           (Resp StatusOK "200 OK" (broken_body "AB")) []);
    try reflexivity; try discriminate.
Defined.

(** ** Sizes *)

Lemma len_append s t : len (s +:+ t) = len s + len t.
Proof. unfold len. rewrite length_append. lia. Qed.

Lemma len_take_bytes s : forall n, 0 <= n -> len (take_bytes n s) <= n.
Proof.
  unfold len. induction s as [|c s IH]; intros n Hn; [cbn; lia|].
  cbn [take_bytes]. destruct (n <=? 0) eqn:Hle; [cbn; lia|].
  apply Z.leb_gt in Hle. cbn [String.length].
  specialize (IH (n - 1) ltac:(lia)). lia.
Qed.

Lemma maxFileSize_pos : 0 < maxFileSize.
Proof. reflexivity. Qed.

Lemma attempt_once_appends
    (E : Env) (a : Archive) (tmp : string) (w : World) (old : string) :
  fs w !! tmp = Some old ->
  exists data,
    fs (snd (attempt_once E a tmp w)) !! tmp = Some (old +:+ data)
    /\ len data <= maxFileSize + 1
    /\ (fst (attempt_once E a tmp w) = None -> len data <= maxFileSize).
Proof.
  intros Hold. pose proof maxFileSize_pos as Hpos.
  assert (Hnone : forall (e : error) (w1 : World),
            fs w1 = fs w ->
            exists data,
              fs (snd (Some e, w1)) !! tmp = Some (old +:+ data)
              /\ len data <= maxFileSize + 1
              /\ (fst (Some e, w1) = None -> len data <= maxFileSize)).
  { intros e w1 Hw1. exists "". rewrite append_empty_r. cbn [fst snd].
    rewrite Hw1. split; [exact Hold|]. split; [|discriminate].
    change (len "") with 0. lia. }
  unfold attempt_once, client_Do, io_Copy.
  destruct (NewRequest_err E (ArchiveURL a)); [apply Hnone; reflexivity|].
  cbn [emit net].
  destruct (net w) as [|[err|code status body] rest];
    try (apply Hnone; reflexivity).
  destruct (negb (code =? StatusOK)); [apply Hnone; reflexivity|].
  pose proof (len_take_bytes (body_data body) (maxFileSize + 1) ltac:(lia))
    as Htake.
  exists (take_bytes (maxFileSize + 1) (body_data body)).
  destruct (copy_error body (maxFileSize + 1));
    [|destruct (maxFileSize <? _) eqn:Hlt];
    cbn [fst snd fs file_Write emit]; rewrite Hold, lookup_insert_eq;
    (split; [reflexivity|]; split; [exact Htake|]); try discriminate.
  intros _. apply Z.ltb_ge in Hlt. exact Hlt.
Qed.

(** One attempt appends at most [maxFileSize + 1] bytes to the staging
    file, and it reports success only if it appended at most
    [maxFileSize]. *)
Theorem attempt_once_write_bound
    (E : Env) (a : Archive) (tmp : string) (w : World) (old : string) :
  fs w !! tmp = Some old ->
  exists data,
    fs (snd (attempt_once E a tmp w)) !! tmp = Some (old +:+ data)
    /\ len data <= maxFileSize + 1
    /\ (fst (attempt_once E a tmp w) = None -> len data <= maxFileSize).
Proof. apply attempt_once_appends. Qed.

Lemma attempt_once_write_bound_witness :
  exists data,
    fs (snd (attempt_once (scenario_env one_archive_doc [entry_ded]) entry_ded
               "archives/x.tmp"
               (mkWorld {[ "archives/x.tmp" := "AB" ]} ∅
                  [Resp StatusOK "200 OK" (ok_body "CD")] [])))
      !! "archives/x.tmp" = Some ("AB" +:+ data)
    /\ len data <= maxFileSize + 1
    /\ (fst (attempt_once (scenario_env one_archive_doc [entry_ded]) entry_ded
               "archives/x.tmp"
               (mkWorld {[ "archives/x.tmp" := "AB" ]} ∅
                  [Resp StatusOK "200 OK" (ok_body "CD")] [])) = None ->
        len data <= maxFileSize).
Proof.
  apply attempt_once_write_bound. vm_compute. reflexivity.
Defined.

Lemma backoff_fs k lastErr w : fs (backoff k lastErr w) = fs w.
Proof. unfold backoff. destruct (1 <? k); reflexivity. Qed.

Lemma retry_loop_size E a tmp attempts : forall lastErr w r w' old,
  retry_loop E a tmp attempts lastErr w = (r, w') ->
  fs w !! tmp = Some old ->
  exists data,
    fs w' !! tmp = Some (old +:+ data)
    /\ len data <= Z.of_nat (List.length attempts) * (maxFileSize + 1)
    /\ (r = None -> lastErr <> None \/ attempts <> [] ->
        len data <= Z.of_nat (List.length attempts) * (maxFileSize + 1) - 1).
Proof.
  pose proof maxFileSize_pos as Hpos.
  induction attempts as [|attempt rest IH]; intros lastErr w r w' old H Hold;
    cbn [retry_loop] in H.
  { injection H as <- <-. exists "". rewrite append_empty_r.
    split; [exact Hold|]. split; [change (len "") with 0; cbn [List.length]; lia|].
    intros -> [Hc|Hc]; contradiction Hc; reflexivity. }
  rewrite <- (backoff_fs attempt lastErr w) in Hold.
  destruct (attempt_once_appends E a tmp _ old Hold)
    as (d1 & Hfs1 & Hb1 & Hok1).
  cbn [List.length]. rewrite Nat2Z.inj_succ, Z.mul_succ_l.
  set (P := Z.of_nat (List.length rest) * (maxFileSize + 1)).
  assert (HP : 0 <= P) by (subst P; apply Z.mul_nonneg_nonneg; lia).
  destruct (attempt_once E a tmp (backoff attempt lastErr w))
    as [[e|] w1] eqn:Honce; cbn [fst snd] in *.
  - destruct (IH _ _ _ _ _ H Hfs1) as (d2 & Hfs2 & Hb2 & Hok2).
    fold P in Hb2, Hok2.
    exists (d1 +:+ d2). rewrite <- append_assoc.
    split; [exact Hfs2|]. rewrite len_append.
    split; [lia|]. intros Hr _.
    assert (Hne : Some e <> (None : option error)) by discriminate.
    specialize (Hok2 Hr (or_introl Hne)). lia.
  - injection H as <- <-. exists d1. split; [exact Hfs1|].
    specialize (Hok1 eq_refl).
    split; [lia|]. intros _ _. lia.
Qed.

(** A file that the transfer has just downloaded holds at most
    [3 * maxFileSize + 2] bytes: the size check bounds what one attempt
    adds to the staging file, not what the file holds in the end. *)
Theorem downloaded_file_size
    (E : Env) (a : Archive) (outDir : string) (delay : Z) (w w' : World) :
  os_Stat_ok (destination E a outDir) w = false ->
  downloadShow E a outDir delay w = (None, w') ->
  exists content,
    fs w' !! destination E a outDir = Some content
    /\ len content <= 3 * maxFileSize + 2.
Proof.
  intros Hstat. unfold downloadShow.
  destruct (String.eqb (ArchiveURL a) ""); [discriminate|].
  fold (destination E a outDir). rewrite Hstat.
  set (out := destination E a outDir).
  set (tmp := out +:+ ".tmp").
  unfold os_MkdirAll.
  destruct (os_fault E OpMkdirAll outDir); [discriminate|].
  unfold os_Create.
  destruct (os_fault E OpCreate tmp); [discriminate|].
  set (w2 := mkWorld (<[tmp:=""]> _) _ _ _).
  unfold download_body.
  destruct (retry_loop E a tmp attempt_range None w2) as [lastErr w3] eqn:Hloop.
  destruct (retry_loop_size E a tmp _ _ _ _ _ "" Hloop (lookup_insert_eq _ _ _))
    as (data & Hfs3 & _ & Hbound).
  destruct lastErr; [discriminate|].
  destruct (file_Sync E tmp); [discriminate|].
  destruct (file_Close E tmp); [discriminate|].
  unfold os_Rename.
  destruct (os_fault E OpRename tmp); [discriminate|].
  rewrite Hfs3. intros [= <-].
  exists ("" +:+ data).
  cbn [deferred_cleanup fs time_Sleep logger emit].
  split; [apply lookup_insert_eq|].
  rewrite append_nil.
  assert (Hne : attempt_range <> []) by discriminate.
  specialize (Hbound eq_refl (or_intror Hne)).
  change (Z.of_nat (List.length attempt_range)) with 3 in Hbound. lia.
Qed.

Lemma downloaded_file_size_witness :
  exists content,
    fs (snd (downloadShow (scenario_env one_archive_doc [entry_ded]) entry_ded
               "archives" five_seconds
               (empty_world [Resp StatusOK "200 OK" (ok_body "ID3")])))
      !! destination (scenario_env one_archive_doc [entry_ded]) entry_ded
           "archives"
    = Some content
    /\ len content <= 3 * maxFileSize + 2.
Proof.
  eapply (downloaded_file_size (scenario_env one_archive_doc [entry_ded])
            entry_ded "archives" five_seconds
            (empty_world [Resp StatusOK "200 OK" (ok_body "ID3")]));
    vm_compute; reflexivity.
Defined.

(** * Further properties of the driver *)

Lemma getShowArchiveID_frame E showID w r w' :
  getShowArchiveID E showID w = (r, w') ->
  fs w' = fs w /\ dirs w' = dirs w
  /\ exists evs,
       trace w' = trace w ++ evs
       /\ sleeps evs = []
       /\ (List.length (requests evs) <= 1)%nat.
Proof.
  unfold getShowArchiveID, client_Do.
  destruct (validateShowID showID).
  { intros [= _ <-]. repeat split. exists []. rewrite app_nil_r. auto. }
  destruct (NewRequest_err E _).
  { intros [= _ <-]. repeat split. exists []. rewrite app_nil_r. auto. }
  cbn [emit net].
  destruct (net w) as [|[err|code status body] rest];
    [| |destruct (negb (code =? StatusOK));
         [|destruct (html_Parse E body);
           [|destruct (String.eqb (f _ "") "")]]];
    intros [= _ <-]; cbn [fs dirs trace logger emit];
    (split; [reflexivity|]; split; [reflexivity|]);
    eexists; (split; [rewrite <- ?app_assoc; reflexivity|]);
    split; try reflexivity; cbn; lia.
Qed.

Lemma fetchArchives_frame E archiveID w r w' :
  fetchArchives E archiveID w = (r, w') ->
  fs w' = fs w /\ dirs w' = dirs w
  /\ exists evs,
       trace w' = trace w ++ evs
       /\ sleeps evs = []
       /\ (List.length (requests evs) <= 1)%nat.
Proof.
  unfold fetchArchives, client_Do.
  destruct (NewRequest_err E _).
  { intros [= _ <-]. repeat split. exists []. rewrite app_nil_r. auto. }
  cbn [emit net].
  destruct (net w) as [|[err|code status body] rest];
    [| |destruct (negb (code =? StatusOK));
         [|destruct (json_Decode E body)]];
    intros [= _ <-]; cbn [fs dirs trace logger emit];
    (split; [reflexivity|]; split; [reflexivity|]);
    eexists; (split; [rewrite <- ?app_assoc; reflexivity|]);
    split; try reflexivity; cbn; lia.
Qed.

Lemma download_each_requests E outDir delay archives : forall w,
  exists evs,
    trace (download_each E archives outDir delay w) = trace w ++ evs
    /\ (List.length (requests evs) <= 3 * List.length archives)%nat.
Proof.
  induction archives as [|a rest IH]; intros w; cbn [download_each].
  { exists []. rewrite app_nil_r. split; [reflexivity|cbn; lia]. }
  destruct (downloadShow E a outDir delay w) as [r w1] eqn:Hrun.
  apply downloadShow_run in Hrun
    as (_ & _ & _ & evs & k & j & Ht & Hjk & Hr & _).
  set (w1' := match r with
              | Some e => logger Error "Download failed"
                            [("archive", ShowID a)] (Some e) w1
              | None => w1
              end).
  assert (H1 : exists evs1, trace w1' = trace w ++ evs1
                            /\ requests evs1 = requests evs).
  { subst w1'. destruct r as [e|].
    - eexists. cbn [trace logger emit]. rewrite Ht, <- app_assoc.
      split; [reflexivity|]. rewrite requests_app. cbn. apply app_nil_r.
    - exists evs. split; [exact Ht|reflexivity]. }
  destruct H1 as (evs1 & Ht1 & Hr1).
  destruct (IH w1') as (evs2 & Ht2 & Hr2).
  exists (evs1 ++ evs2). split.
  - rewrite Ht2, Ht1, <- app_assoc. reflexivity.
  - rewrite requests_app, length_app, Hr1, Hr, repeat_length.
    cbn [List.length]. lia.
Qed.

(** A run that ends with status 1 has changed no file and no directory
    and has not slept; it sent at most two requests. *)
Theorem main_failure_leaves_files
    (E : Env) (showID outDir : string) (delay : Z) (w : World) :
  fst (main E showID outDir delay w) = 1 ->
  fs (snd (main E showID outDir delay w)) = fs w
  /\ dirs (snd (main E showID outDir delay w)) = dirs w
  /\ sleeps (events_since w (snd (main E showID outDir delay w))) = []
  /\ (List.length
        (requests (events_since w (snd (main E showID outDir delay w))))
      <= 2)%nat.
Proof.
  unfold main.
  set (w0 := logger Info "Starting archive download" _ None w).
  destruct (getShowArchiveID E showID w0) as [[err|archiveID] w1] eqn:Hres;
    apply getShowArchiveID_frame in Hres
      as (Hfs1 & Hd1 & evs1 & Ht1 & Hs1 & Hr1).
  { intros _. cbn [fst snd fs dirs logger emit].
    erewrite events_since_app
      by (cbn [trace logger emit]; rewrite Ht1; subst w0; cbn [trace logger emit];
          rewrite <- !app_assoc; reflexivity).
    split; [exact Hfs1|]. split; [exact Hd1|].
    change (?e :: evs1 ++ ?l) with ([e] ++ evs1 ++ l).
    rewrite !sleeps_app, !requests_app, !length_app, Hs1. cbn. split; [reflexivity|lia]. }
  destruct (fetchArchives E archiveID w1) as [[err|archives] w2] eqn:Hfetch;
    apply fetchArchives_frame in Hfetch
      as (Hfs2 & Hd2 & evs2 & Ht2 & Hs2 & Hr2).
  { intros _. cbn [fst snd fs dirs logger emit].
    erewrite events_since_app
      by (cbn [trace logger emit]; rewrite Ht2, Ht1; subst w0; cbn [trace logger emit];
          rewrite <- !app_assoc; reflexivity).
    split; [rewrite Hfs2, Hfs1; reflexivity|].
    split; [rewrite Hd2, Hd1; reflexivity|].
    change (?e :: evs1 ++ ?l) with ([e] ++ evs1 ++ l).
    rewrite !sleeps_app, !requests_app, !length_app, Hs1, Hs2. cbn.
    split; [reflexivity|lia]. }
  destruct (List.length archives =? 0)%nat; [|discriminate].
  intros _. cbn [fst snd fs dirs logger emit].
  erewrite events_since_app
    by (cbn [trace logger emit]; rewrite Ht2, Ht1; subst w0; cbn [trace logger emit];
        rewrite <- !app_assoc; reflexivity).
  split; [rewrite Hfs2, Hfs1; reflexivity|].
  split; [rewrite Hd2, Hd1; reflexivity|].
  change (?e :: evs1 ++ ?l) with ([e] ++ evs1 ++ l).
  rewrite !sleeps_app, !requests_app, !length_app, Hs1, Hs2. cbn.
  split; [reflexivity|lia].
Qed.

Lemma main_failure_leaves_files_witness :
  let E := scenario_env one_archive_doc [] in
  let w := mkWorld {[ "archives/old.mp3" := "ID3" ]} ∅
             [Resp StatusOK "200 OK" (ok_body "<html>");
              Resp StatusOK "200 OK" (ok_body "[]")] [] in
  fs (snd (main E "ded" "archives" five_seconds w)) = fs w
  /\ dirs (snd (main E "ded" "archives" five_seconds w)) = dirs w
  /\ sleeps (events_since w (snd (main E "ded" "archives" five_seconds w))) = []
  /\ (List.length
        (requests (events_since w (snd (main E "ded" "archives" five_seconds w))))
      <= 2)%nat.
Proof.
  apply (main_failure_leaves_files (scenario_env one_archive_doc []) "ded"
           "archives" five_seconds). vm_compute. reflexivity.
Defined.

(** With a show key that does not validate, the run ends with status 1
    before anything is sent: the pending responses are untouched and the
    trace gains the start line and the error line only. *)
Theorem main_invalid_key
    (E : Env) (showID outDir : string) (delay : Z) (w : World) (e : error) :
  validateShowID showID = Some e ->
  fst (main E showID outDir delay w) = 1
  /\ net (snd (main E showID outDir delay w)) = net w
  /\ events_since w (snd (main E showID outDir delay w))
     = [EvLog Info "Starting archive download"
          [("show_id", showID); ("output_dir", outDir)] None;
        EvLog Error "Failed to get archive ID" [] (Some e)].
Proof.
  intros Hv. unfold main, getShowArchiveID. rewrite Hv.
  cbn [fst snd net logger emit]. since_trace. repeat split.
Qed.

Lemma main_invalid_key_witness :
  fst (main (scenario_env one_archive_doc [entry_ded]) "../etc" "archives"
         five_seconds (empty_world [server_error])) = 1
  /\ net (snd (main (scenario_env one_archive_doc [entry_ded]) "../etc"
                 "archives" five_seconds (empty_world [server_error])))
     = net (empty_world [server_error])
  /\ events_since (empty_world [server_error])
       (snd (main (scenario_env one_archive_doc [entry_ded]) "../etc"
               "archives" five_seconds (empty_world [server_error])))
     = [EvLog Info "Starting archive download"
          [("show_id", "../etc"); ("output_dir", "archives")] None;
        EvLog Error "Failed to get archive ID" []
          (Some (Wrapf "%w: contains invalid characters" [] ErrInvalidShowID))].
Proof. apply main_invalid_key. reflexivity. Defined.

(** A run sends at most two requests for the page and the listing and at
    most three for every entry of the catalog. *)
Theorem main_request_bound
    (E : Env) (showID outDir : string) (delay : Z) (w w1 w2 : World)
    (archiveID : string) (archives : list Archive) :
  getShowArchiveID E showID
    (logger Info "Starting archive download"
       [("show_id", showID); ("output_dir", outDir)] None w)
  = (inr archiveID, w1) ->
  fetchArchives E archiveID w1 = (inr archives, w2) ->
  (List.length (requests (events_since w (snd (main E showID outDir delay w))))
   <= 2 + 3 * List.length archives)%nat.
Proof.
  intros Hres Hfetch. unfold main. rewrite Hres, Hfetch.
  apply getShowArchiveID_frame in Hres as (_ & _ & evs1 & Ht1 & _ & Hr1).
  apply fetchArchives_frame in Hfetch as (_ & _ & evs2 & Ht2 & _ & Hr2).
  destruct (List.length archives =? 0)%nat; cbn [snd].
  - erewrite events_since_app
      by (cbn [trace logger emit]; rewrite Ht2, Ht1; cbn [trace logger emit];
          rewrite <- !app_assoc; reflexivity).
    change (?e :: evs1 ++ ?l) with ([e] ++ evs1 ++ l).
    rewrite !requests_app, !length_app. cbn. lia.
  - destruct (download_each_requests E outDir delay archives w2)
      as (evs3 & Ht3 & Hr3).
    erewrite events_since_app
      by (rewrite Ht3, Ht2, Ht1; cbn [trace logger emit];
          rewrite <- !app_assoc; reflexivity).
    change (?e :: evs1 ++ ?l) with ([e] ++ evs1 ++ l).
    rewrite !requests_app, !length_app. cbn [requests flat_map List.length app].
    lia.
Qed.

Lemma main_request_bound_witness :
  let E := scenario_env one_archive_doc [entry_ded] in
  let w := empty_world [Resp StatusOK "200 OK" (ok_body "<html>");
                        Resp StatusOK "200 OK" (ok_body "[ 1 entry ]");
                        server_error; server_error; server_error] in
  (List.length
     (requests (events_since w (snd (main E "ded" "archives" five_seconds w))))
   <= 2 + 3 * List.length [entry_ded])%nat.
Proof.
  eapply (main_request_bound (scenario_env one_archive_doc [entry_ded]) "ded"
            "archives" five_seconds); vm_compute; reflexivity.
Defined.

(** * progressReader *)

Section ProgressReader.

Context {R W : Type} `{io_Reader R}.

Lemma wrap_int64_small z : - 2 ^ 63 <= z < 2 ^ 63 -> wrap_int64 z = z.
Proof.
  intros Hz. unfold wrap_int64. rewrite Z.mod_small by lia. lia.
Qed.

Lemma len_nonneg s : 0 <= len s.
Proof. unfold len. lia. Qed.

Lemma total_bytes_nonneg results : 0 <= total_bytes results.
Proof.
  induction results as [|res results IH]; cbn [total_bytes fold_right];
    [lia|]. fold (total_bytes results). pose proof (len_nonneg (fst res)). lia.
Qed.

(** Reading through a [progressReader] gives the caller what reading
    the wrapped reader gives, call by call: the same bytes and the same
    errors; the wrapped reader ends in the same state, and [total] and
    the callback are not changed. *)
Theorem progress_reads_transparent
    (pr : progressReader R W) (sizes : list nat) (w : W) :
  fst (fst (progress_reads pr sizes w)) = fst (reader_reads (reader pr) sizes)
  /\ reader (snd (fst (progress_reads pr sizes w)))
     = snd (reader_reads (reader pr) sizes)
  /\ total (snd (fst (progress_reads pr sizes w))) = total pr
  /\ onProgress (snd (fst (progress_reads pr sizes w))) = onProgress pr.
Proof.
  revert pr w. induction sizes as [|p rest IH]; intros pr w;
    cbn [progress_reads reader_reads]; [repeat split|].
  unfold progressReader_Read.
  destruct (io_Read (reader pr) p) as [[data err] rd].
  destruct (0 <? len data);
    match goal with
    | |- context [progress_reads ?pr1 rest ?w1] =>
        specialize (IH pr1 w1);
        destruct (progress_reads pr1 rest w1) as [[results pr2] w2]
    end;
    cbn [fst snd reader total onProgress] in *;
    destruct (reader_reads rd rest) as [results' rd'];
    cbn [fst snd] in *;
    destruct IH as (-> & -> & -> & ->); repeat split.
Qed.

(** As long as the count stays below 2^63, [written] grows by exactly
    the number of bytes handed to the caller. *)
Theorem progress_reads_written
    (pr : progressReader R W) (sizes : list nat) (w : W) :
  0 <= written pr ->
  written pr + total_bytes (fst (reader_reads (reader pr) sizes)) < 2 ^ 63 ->
  written (snd (fst (progress_reads pr sizes w)))
  = written pr + total_bytes (fst (reader_reads (reader pr) sizes)).
Proof.
  revert pr w. induction sizes as [|p rest IH]; intros pr w Hpos Hmax;
    cbn [progress_reads reader_reads] in *.
  { cbn [fst snd total_bytes fold_right]. lia. }
  unfold progressReader_Read.
  destruct (io_Read (reader pr) p) as [[data err] rd].
  destruct (reader_reads rd rest) as [results' rd'] eqn:Hrest.
  cbn [fst snd total_bytes fold_right] in Hmax |- *.
  fold (total_bytes results') in Hmax |- *.
  pose proof (len_nonneg data) as Hd.
  pose proof (total_bytes_nonneg results') as Ht.
  destruct (0 <? len data) eqn:Hn;
    match goal with
    | |- context [progress_reads ?pr1 rest ?w1] =>
        specialize (IH pr1 w1);
        destruct (progress_reads pr1 rest w1) as [[results pr2] w2]
    end;
    cbn [fst snd reader written] in *; rewrite Hrest in IH;
    cbn [fst] in IH.
  - rewrite wrap_int64_small in IH by lia. rewrite IH by lia. lia.
  - apply Z.ltb_ge in Hn. rewrite IH by lia. lia.
Qed.

Lemma progress_reads_fold
    (pr : progressReader R W) (sizes : list nat) (w : W)
    (callback : Z -> W -> W) :
  onProgress pr = Some callback ->
  0 <= written pr ->
  written pr + total_bytes (fst (reader_reads (reader pr) sizes)) < 2 ^ 63 ->
  snd (progress_reads pr sizes w)
  = fold_left (fun w count => callback count w)
      (running_totals (written pr)
         (map (fun res => len (fst res))
            (fst (reader_reads (reader pr) sizes))))
      w.
Proof.
  revert pr w. induction sizes as [|p rest IH]; intros pr w Hcb Hpos Hmax;
    cbn [progress_reads reader_reads] in *; [reflexivity|].
  unfold progressReader_Read.
  destruct (io_Read (reader pr) p) as [[data err] rd].
  destruct (reader_reads rd rest) as [results' rd'] eqn:Hrest.
  cbn [fst snd total_bytes fold_right map running_totals] in Hmax |- *.
  fold (total_bytes results') in Hmax.
  pose proof (len_nonneg data) as Hd.
  pose proof (total_bytes_nonneg results') as Ht.
  rewrite Hcb.
  destruct (0 <? len data) eqn:Hn;
    match goal with
    | |- context [progress_reads ?pr1 rest ?w1] =>
        specialize (IH pr1 w1);
        destruct (progress_reads pr1 rest w1) as [[results pr2] w2]
    end;
    cbn [fst snd reader written onProgress] in *; rewrite Hrest in IH;
    cbn [fst fold_left] in *.
  - rewrite wrap_int64_small in * by lia.
    apply IH; [first [exact Hcb|reflexivity]|lia|lia].
  - apply Z.ltb_ge in Hn.
    apply IH; [first [exact Hcb|reflexivity]|lia|lia].
Qed.

(** Under the same bound, the callback is called once for every read
    that returned bytes, in order, with the count reached by that read;
    a read that returned nothing does not call it. *)
Theorem progress_reads_callbacks
    (pr : progressReader R W) (sizes : list nat) (w : W)
    (callback : Z -> W -> W) :
  onProgress pr = Some callback ->
  0 <= written pr ->
  written pr + total_bytes (fst (reader_reads (reader pr) sizes)) < 2 ^ 63 ->
  snd (progress_reads pr sizes w)
  = fold_left (fun w count => callback count w)
      (running_totals (written pr)
         (map (fun res => len (fst res))
            (fst (reader_reads (reader pr) sizes))))
      w.
Proof. apply progress_reads_fold. Qed.

End ProgressReader.

Lemma progress_reads_written_witness :
  written (snd (fst (progress_reads
                      (mkProgressReader "hello world" 11 0 (Some record_count))
                      [4; 4; 4; 4]%nat [])))
  = 0 + total_bytes (fst (reader_reads "hello world" [4; 4; 4; 4]%nat)).
Proof.
  apply (progress_reads_written
           (mkProgressReader "hello world" 11 0 (Some record_count)));
    vm_compute; congruence.
Defined.

Lemma progress_reads_callbacks_witness :
  snd (progress_reads
         (mkProgressReader "hello world" 11 0 (Some record_count))
         [4; 4; 4; 4]%nat [])
  = fold_left (fun seen count => record_count count seen)
      (running_totals 0
         (map (fun res => len (fst res))
            (fst (reader_reads "hello world" [4; 4; 4; 4]%nat))))
      [].
Proof.
  apply (progress_reads_callbacks
           (mkProgressReader "hello world" 11 0 (Some record_count)));
    [reflexivity|vm_compute; congruence|vm_compute; congruence].
Defined.

Lemma download_onProgress_fold filename (counts : list Z) : forall w,
  let w' := fold_left (fun w count => download_onProgress filename count w)
              counts w in
  fs w' = fs w /\ dirs w' = dirs w /\ net w' = net w
  /\ trace w'
     = trace w
       ++ map (fun _ => EvLog Debug "Download progress"
                          [("filename", filename)] None)
            (List.filter (fun count => Z.rem count 1024 =? 0) counts).
Proof.
  induction counts as [|c counts IH]; intros w; cbn [fold_left List.filter].
  { rewrite app_nil_r. repeat split. }
  destruct (IH (download_onProgress filename c w)) as (Hfs & Hd & Hn & Ht).
  cbn zeta in *. rewrite Hfs, Hd, Hn, Ht. unfold download_onProgress.
  destruct (Z.rem c 1024 =? 0); cbn [fs dirs net trace logger emit map].
  - rewrite <- app_assoc. repeat split.
  - repeat split.
Qed.

(** With the callback that [downloadShow] installs, a debug line is
    written for exactly those reads after which the count is a multiple
    of 1024, and nothing else in the world changes; reads that pass a
    multiple of 1024 without landing on one leave no line. *)
Theorem download_progress_lines
    {R : Type} `{io_Reader R} (pr : progressReader R World)
    (sizes : list nat) (w : World) (filename : string) :
  onProgress pr = Some (download_onProgress filename) ->
  0 <= written pr ->
  written pr + total_bytes (fst (reader_reads (reader pr) sizes)) < 2 ^ 63 ->
  fs (snd (progress_reads pr sizes w)) = fs w
  /\ net (snd (progress_reads pr sizes w)) = net w
  /\ events_since w (snd (progress_reads pr sizes w))
     = map (fun _ => EvLog Debug "Download progress"
                       [("filename", filename)] None)
         (List.filter (fun count => Z.rem count 1024 =? 0)
            (running_totals (written pr)
               (map (fun res => len (fst res))
                  (fst (reader_reads (reader pr) sizes))))).
Proof.
  intros Hcb Hpos Hmax.
  rewrite (progress_reads_fold pr sizes w _ Hcb Hpos Hmax).
  match goal with
  | |- context [fold_left _ ?counts w] =>
      destruct (download_onProgress_fold filename counts w)
        as (Hfs & _ & Hn & Ht)
  end.
  cbn zeta in *. split; [exact Hfs|]. split; [exact Hn|].
  apply events_since_app, Ht.
Qed.

Lemma download_progress_lines_witness :
  let pr := mkProgressReader (String.concat "" (repeat "0123456789abcdef" 128))
              2048 0 (Some (download_onProgress "x.mp3")) in
  let w := empty_world [] in
  fs (snd (progress_reads pr [1000; 24; 1000; 24]%nat w)) = fs w
  /\ net (snd (progress_reads pr [1000; 24; 1000; 24]%nat w)) = net w
  /\ events_since w (snd (progress_reads pr [1000; 24; 1000; 24]%nat w))
     = map (fun _ => EvLog Debug "Download progress"
                       [("filename", "x.mp3")] None)
         (List.filter (fun count => Z.rem count 1024 =? 0)
            (running_totals (written pr)
               (map (fun res => len (fst res))
                  (fst (reader_reads (reader pr)
                          [1000; 24; 1000; 24]%nat))))).
Proof.
  apply (download_progress_lines
           (mkProgressReader (String.concat "" (repeat "0123456789abcdef" 128))
              2048 0 (Some (download_onProgress "x.mp3"))));
    [reflexivity|vm_compute; congruence|vm_compute; congruence].
Defined.

(** Reads of 1000, 24, 1000 and 24 bytes: the counts are 1000, 1024,
    2024 and 2048, and two lines are written. *)
Example progress_lines_chunks :
  let pr := mkProgressReader (String.concat "" (repeat "0123456789abcdef" 128))
              2048 0 (Some (download_onProgress "x.mp3")) in
  List.length (trace (snd (progress_reads pr [1000; 24; 1000; 24]%nat
                             (empty_world []))))
  = 2%nat
  /\ List.length (trace (snd (progress_reads pr [1000; 1000; 48]%nat
                              (empty_world []))))
     = 1%nat.
Proof. vm_compute. split; reflexivity. Qed.

Example progress_reads_hello :
  progress_reads (mkProgressReader "hello world" 11 0 (Some record_count))
    [4; 4; 4; 4]%nat []
  = ([("hell", None); ("o wo", None); ("rld", None);
      ("", Some (ErrExternal "EOF"))],
     mkProgressReader "" 11 11 (Some record_count),
     [4; 8; 11]).
Proof. reflexivity. Qed.

(** * The file names downloadShow builds *)

Lemma between_not_ascii lo hi c :
  128 <= lo -> byte_between lo hi c = true -> is_ascii c = false.
Proof.
  unfold byte_between, is_ascii. intros Hlo [H1 _]%andb_prop.
  apply Z.leb_le in H1. apply Z.ltb_ge. lia.
Qed.

Lemma ascii_not_between lo hi c :
  128 <= lo -> is_ascii c = true -> byte_between lo hi c = false.
Proof.
  intros Hlo Hc. destruct (byte_between lo hi c) eqn:Hb; [|reflexivity].
  rewrite (between_not_ascii lo hi c Hlo Hb) in Hc. discriminate.
Qed.

Lemma multi_width_pending size lo hi rest :
  128 <= lo -> pending (multi_width size lo hi rest - 1) rest.
Proof.
  intros Hlo. unfold multi_width.
  destruct rest as [|c1 rest]; [exact I|]. cbn [str_head str_tail second_ok].
  destruct (byte_between lo hi c1) eqn:H1; cbn [negb]; [|exact I].
  apply (between_not_ascii lo hi c1 Hlo) in H1.
  destruct (size <=? 2)%nat; [cbn; auto|].
  destruct rest as [|c2 rest]; [exact I|]. cbn [str_head str_tail is_cont].
  destruct (byte_between 128 191 c2) eqn:H2; cbn [negb]; [|exact I].
  apply (between_not_ascii 128 191 c2 ltac:(lia)) in H2.
  destruct (size <=? 3)%nat; [cbn; auto|].
  destruct rest as [|c3 rest]; [exact I|]. cbn [str_head str_tail is_cont].
  destruct (byte_between 128 191 c3) eqn:H3; cbn [negb]; [|exact I].
  apply (between_not_ascii 128 191 c3 ltac:(lia)) in H3.
  cbn. auto.
Qed.

Lemma rune_width_pending c rest : pending (rune_width c rest - 1) rest.
Proof.
  unfold rune_width.
  repeat match goal with
         | |- context [if ?b then _ else _] =>
             lazymatch b with
             | (_ <? _) => destruct b
             | (_ =? _) => destruct b
             end
         end;
    try exact I; apply multi_width_pending; lia.
Qed.

Lemma multi_width_ascii_stop size lo hi s c t :
  128 <= lo -> is_ascii c = true ->
  multi_width size lo hi (s +:+ String c t) = multi_width size lo hi s.
Proof.
  intros Hlo Hc. unfold multi_width.
  pose proof (ascii_not_between lo hi c Hlo Hc) as Hc1.
  pose proof (ascii_not_between 128 191 c ltac:(lia) Hc) as Hc2.
  destruct s as [|c1 [|c2 [|c3 s]]];
    rewrite ?append_cons, ?append_nil;
    cbn [str_head str_tail second_ok is_cont];
    rewrite ?Hc1, ?Hc2; reflexivity.
Qed.

Lemma rune_width_ascii_stop x s c t :
  is_ascii c = true -> rune_width x (s +:+ String c t) = rune_width x s.
Proof.
  intros Hc. unfold rune_width.
  rewrite !multi_width_ascii_stop by (exact Hc || lia). reflexivity.
Qed.

Lemma replace_from_keep cls repl s keep keep' :
  replace_from cls repl 0 keep s = replace_from cls repl 0 keep' s.
Proof. destruct s; reflexivity. Qed.

(** The replacement can be cut in front of any ASCII byte. *)
Lemma replace_from_cut cls repl s c t : forall skip keep,
  is_ascii c = true ->
  pending skip (s +:+ String c t) ->
  replace_from cls repl skip keep (s +:+ String c t)
  = replace_from cls repl skip keep s
    +:+ replace_from cls repl 0 false (String c t).
Proof.
  induction s as [|x s IH]; intros skip keep Hc Hp.
  - rewrite append_nil in *. destruct skip as [|k].
    + apply replace_from_keep.
    + cbn [pending] in Hp. destruct Hp as [Hx _]. congruence.
  - rewrite append_cons in *. destruct skip as [|k].
    + cbn [replace_from]. rewrite rune_width_ascii_stop by exact Hc.
      rewrite IH; [|exact Hc|].
      * rewrite append_assoc. reflexivity.
      * rewrite <- (rune_width_ascii_stop x s c t Hc).
        apply rune_width_pending.
    + cbn [pending] in Hp. destruct Hp as [_ Hp].
      cbn [replace_from]. rewrite (IH k keep Hc Hp).
      destruct keep; [rewrite append_cons|]; reflexivity.
Qed.

Lemma ReplaceAllString_cut s c t :
  is_ascii c = true ->
  ReplaceAllString unsafeFilenameClass (s +:+ String c t) "_"
  = ReplaceAllString unsafeFilenameClass s "_"
    +:+ ReplaceAllString unsafeFilenameClass (String c t) "_".
Proof.
  intros Hc. unfold ReplaceAllString. apply replace_from_cut; [exact Hc|exact I].
Qed.

(** For a date and a show identifier without separator the file name is
    the sanitised date, an underscore, the sanitised identifier and
    [.mp3]; the suffix is there once. *)
Theorem sanitizeFilename_date_id (date id : string) :
  has_sep date = false -> has_sep id = false ->
  sanitizeFilename (date +:+ "_" +:+ id +:+ ".mp3")
  = ReplaceAllString unsafeFilenameClass date "_"
    +:+ "_" +:+ ReplaceAllString unsafeFilenameClass id "_" +:+ ".mp3".
Proof.
  intros Hd Hi. unfold sanitizeFilename.
  rewrite Base_no_sep.
  2:{ apply append_nonempty_r. discriminate. }
  2:{ rewrite !has_sep_app, Hd, Hi. reflexivity. }
  change ("_" +:+ id +:+ ".mp3") with (String "_" (id +:+ ".mp3")).
  rewrite ReplaceAllString_cut by reflexivity.
  assert (Hu : ReplaceAllString unsafeFilenameClass (String "_" (id +:+ ".mp3")) "_"
               = "_" +:+ ReplaceAllString unsafeFilenameClass (id +:+ ".mp3") "_").
  { reflexivity. }
  rewrite Hu.
  change (id +:+ ".mp3") with (id +:+ String "." "mp3").
  rewrite ReplaceAllString_cut by reflexivity.
  change (ReplaceAllString unsafeFilenameClass (String "." "mp3") "_")
    with ".mp3".
  set (out := _ +:+ "_" +:+ _ +:+ ".mp3").
  assert (Hsuf : strings_HasSuffix (strings_ToLower out) ".mp3" = true).
  { subst out. rewrite <- !append_assoc, ToLower_app. apply HasSuffix_app. }
  rewrite Hsuf. reflexivity.
Qed.

Lemma sanitizeFilename_date_id_witness :
  sanitizeFilename ("2024-03-15" +:+ "_" +:+ "the ded show" +:+ ".mp3")
  = ReplaceAllString unsafeFilenameClass "2024-03-15" "_"
    +:+ "_" +:+ ReplaceAllString unsafeFilenameClass "the ded show" "_"
    +:+ ".mp3".
Proof. apply sanitizeFilename_date_id; reflexivity. Defined.

(** What stands before the last separator of the show identifier does
    not reach the file name, and neither does the date: two entries
    whose identifiers end alike after a separator share one destination. *)
Theorem destination_after_separator
    (E : Env) (a1 a2 : Archive) (outDir prefix1 prefix2 name : string) :
  has_sep name = false ->
  ShowID a1 = prefix1 +:+ "/" +:+ name ->
  ShowID a2 = prefix2 +:+ "/" +:+ name ->
  destination E a1 outDir = destination E a2 outDir.
Proof.
  intros Hname H1 H2. unfold destination, sanitizeFilename.
  rewrite H1, H2.
  assert (Hbase : forall date pre,
            filepath_Base (date +:+ "_" +:+ (pre +:+ "/" +:+ name) +:+ ".mp3")
            = name +:+ ".mp3").
  { intros date pre.
    replace (date +:+ "_" +:+ (pre +:+ "/" +:+ name) +:+ ".mp3")
      with ((date +:+ "_" +:+ pre) +:+ "/" +:+ (name +:+ ".mp3"))
      by (rewrite !append_assoc; reflexivity).
    apply Base_dir; [apply append_nonempty_r; discriminate|].
    rewrite has_sep_app, Hname. reflexivity. }
  rewrite !Hbase. reflexivity.
Qed.

Lemma destination_after_separator_witness :
  destination (scenario_env one_archive_doc [])
    (mkArchive "shows/ded" "https://x/1.mp3" None "2024-03-15") "archives"
  = destination (scenario_env one_archive_doc [])
      (mkArchive "other/ded" "https://x/2.mp3" None "2024-03-22") "archives".
Proof.
  apply (destination_after_separator _ _ _ _ "shows" "other" "ded");
    reflexivity.
Defined.

(** * The size limit and read errors *)

Lemma len_take_bytes_full s : forall n,
  0 <= n <= len s -> len (take_bytes n s) = n.
Proof.
  unfold len. induction s as [|c s IH]; intros n Hn.
  - cbn in *. lia.
  - cbn [take_bytes]. destruct (n <=? 0) eqn:Hle.
    + apply Z.leb_le in Hle. cbn. lia.
    + apply Z.leb_gt in Hle. cbn [String.length] in *.
      specialize (IH (n - 1) ltac:(lia)). lia.
Qed.

(** A body of exactly [maxFileSize + 1] bytes whose read error comes
    with the last bytes: the copy reports the error, and the attempt
    fails with it, not with [ErrFileTooLarge]. *)
Lemma attempt_error_at_limit a tmp status body e :
  len (body_data body) = maxFileSize + 1 ->
  body_err body = Some e ->
  body_err_late body = false ->
  attempt_error a tmp (Resp StatusOK status body)
  = Some (Wrapf "error writing to %s: %w" [tmp] e).
Proof.
  intros Hlen He Hlate. unfold attempt_error, copy_error.
  cbn [Z.eqb StatusOK Pos.eqb negb]. rewrite Hlen, He, Hlate.
  rewrite Z.ltb_irrefl, Z.eqb_refl. reflexivity.
Qed.

(** The same body with the error due on the next call: the limited
    reader ends the copy first, and the attempt fails on the size. *)
Lemma attempt_error_at_limit_late a tmp status body :
  len (body_data body) = maxFileSize + 1 ->
  body_err_late body = true ->
  attempt_error a tmp (Resp StatusOK status body) = Some ErrFileTooLarge.
Proof.
  intros Hlen Hlate. unfold attempt_error, copy_error.
  cbn [Z.eqb StatusOK Pos.eqb negb]. rewrite Hlate.
  rewrite len_take_bytes_full by (pose proof maxFileSize_pos; lia).
  rewrite Hlen, Z.ltb_irrefl. rewrite andb_false_r.
  destruct (maxFileSize <? maxFileSize + 1) eqn:Hlt; [reflexivity|].
  apply Z.ltb_ge in Hlt. lia.
Qed.

(** A body longer than that never shows its read error. *)
Lemma attempt_error_over_limit a tmp status body :
  maxFileSize + 1 < len (body_data body) ->
  attempt_error a tmp (Resp StatusOK status body) = Some ErrFileTooLarge.
Proof.
  intros Hlen. unfold attempt_error, copy_error.
  cbn [Z.eqb StatusOK Pos.eqb negb].
  rewrite len_take_bytes_full by (pose proof maxFileSize_pos; lia).
  destruct (len (body_data body) <? maxFileSize + 1) eqn:H1;
    [apply Z.ltb_lt in H1; lia|].
  destruct (len (body_data body) =? maxFileSize + 1) eqn:H2;
    [apply Z.eqb_eq in H2; lia|]. cbn [andb].
  destruct (maxFileSize <? maxFileSize + 1) eqn:Hlt; [reflexivity|].
  apply Z.ltb_ge in Hlt. lia.
Qed.

(** The copy at a limit of three bytes. *)
Example copy_below_limit :
  io_Copy "f" (mkBody "AB" (Some (ErrExternal "reset")) true) 3
    (mkWorld {[ "f" := "" ]} ∅ [] [])
  = (2, Some (ErrExternal "reset"), mkWorld {[ "f" := "AB" ]} ∅ [] []).
Proof. vm_compute. reflexivity. Qed.

Example copy_at_limit_error_with_data :
  io_Copy "f" (mkBody "ABC" (Some (ErrExternal "reset")) false) 3
    (mkWorld {[ "f" := "" ]} ∅ [] [])
  = (3, Some (ErrExternal "reset"), mkWorld {[ "f" := "ABC" ]} ∅ [] []).
Proof. vm_compute. reflexivity. Qed.

Example copy_at_limit_error_late :
  io_Copy "f" (mkBody "ABC" (Some (ErrExternal "reset")) true) 3
    (mkWorld {[ "f" := "" ]} ∅ [] [])
  = (3, None, mkWorld {[ "f" := "ABC" ]} ∅ [] []).
Proof. vm_compute. reflexivity. Qed.

Example copy_over_limit :
  io_Copy "f" (mkBody "ABCD" (Some (ErrExternal "reset")) false) 3
    (mkWorld {[ "f" := "" ]} ∅ [] [])
  = (3, None, mkWorld {[ "f" := "ABC" ]} ∅ [] []).
Proof. vm_compute. reflexivity. Qed.

(** A failed entry does not stop the batch: the first entry has no URL,
    the second one is downloaded all the same. *)
Example main_continues_after_failure :
  let E := scenario_env one_archive_doc [entry_no_url; entry_ded] in
  let w := empty_world [Resp 200 "200 OK" (ok_body "<html>");
                        Resp 200 "200 OK" (ok_body "[ 2 entries ]");
                        Resp 200 "200 OK" (ok_body "ID3")] in
  let run := main E "ded" "archives" five_seconds w in
  fst run = 0
  /\ fs (snd run) !! "archives/2024-03-15_ded.mp3" = Some "ID3"
  /\ List.filter is_outcome_event (trace (snd run))
     = [EvLog Error "Download failed" [("archive", "ded")]
          (Some (Errorf "no MP3 URL available for archive: %s" ["ded"]));
        EvLog Info "Downloaded file" [("filename", "2024-03-15_ded.mp3")]
          None].
Proof. vm_compute. repeat split. Qed.
